(** * The size-estimation endpoint of [app.py]

    A shallow embedding of the Flask view [estimate_size] and of the
    Python operations it is built from.  Python values decoded from JSON
    are an inductive type, exceptions are an explicit result type, and the
    one outbound effect (the call to the generative model) is recorded in
    a trace threaded through a small state-and-error monad.

    Python strings are modelled as [string]: sequences of the code points
    below 256.  Logging is not modelled: the view only writes to the
    logger and never reads it back. *)

From Stdlib Require Import ZArith String Ascii Bool Lia.
From Stdlib Require Import Floats.SpecFloat.
From stdpp Require Import gmap strings list pretty.

Local Open Scope string_scope.

(** ** Python values *)

(** What [request.get_json()] and [json.loads] produce: [None], [bool],
    [int], [float], [str], [list] and [dict] with string keys, in insertion
    order. *)
#[local] Unset Elimination Schemes.
Inductive pyval : Type :=
| PNone
| PBool (b : bool)
| PInt (n : Z)
| PFloat (f : spec_float)
| PStr (s : string)
| PList (l : list pyval)
| PDict (d : list (string * pyval)).
#[local] Set Elimination Schemes.

(** The name Python prints for the type of a value. *)
Definition type_name (v : pyval) : string :=
  match v with
  | PNone => "NoneType"
  | PBool _ => "bool"
  | PInt _ => "int"
  | PFloat _ => "float"
  | PStr _ => "str"
  | PList _ => "list"
  | PDict _ => "dict"
  end.

(** ** Exceptions *)

(** The exception classes the view can meet; every one derives from
    [Exception].  [OtherException] stands for any further such class
    that is not a [JSONDecodeError]. *)
Inductive exn_class : Type :=
| TypeError
| AttributeError
| ValueError
| IndexError
| KeyError
| JSONDecodeError
| BinasciiError
| OtherException (name : string).

Record exn : Type := Exn { exn_cls : exn_class; exn_str : string }.

Inductive result (A : Type) : Type :=
| Ok (a : A)
| Raise (e : exn).
Arguments Ok {A} a.
Arguments Raise {A} e.

Definition is_ok {A} (r : result A) : bool :=
  match r with Ok _ => true | Raise _ => false end.

(** [isinstance(e, json.JSONDecodeError)] *)
Definition is_json_decode_error (e : exn) : bool :=
  match exn_cls e with JSONDecodeError => true | _ => false end.

(** ** Python string operations *)

Definition sq : string := String (ascii_of_nat 39) EmptyString.
Definition dq : string := String (ascii_of_nat 34) EmptyString.
Definition nl : string := String (ascii_of_nat 10) EmptyString.

(** [sub in s] *)
Fixpoint str_contains (sub s : string) : bool :=
  String.prefix sub s ||
  match s with
  | EmptyString => false
  | String _ s' => str_contains sub s'
  end.

(** [s.split(sep)] for a non-empty separator: scan from the left, cutting
    at each occurrence of [sep]; [skip] counts the characters of a matched
    separator still to be passed over, [cur] is the piece being built. *)
Fixpoint split_from (sep : string) (skip : nat) (cur s : string) : list string :=
  match s with
  | EmptyString => [cur]
  | String c s' =>
      match skip with
      | S k => split_from sep k cur s'
      | O =>
          if String.prefix sep s
          then cur :: split_from sep (String.length sep - 1) EmptyString s'
          else split_from sep 0 (cur +:+ String c EmptyString) s'
      end
  end.

Definition str_split (s sep : string) : list string := split_from sep 0 EmptyString s.

(** [str.isspace] on one character: the white space among the code points
    below 256. *)
Definition is_space (c : ascii) : bool :=
  let n := nat_of_ascii c in
  (((9 <=? n) && (n <=? 13)) || ((28 <=? n) && (n <=? 32)) || (n =? 133) || (n =? 160))%nat.

Fixpoint str_lstrip (s : string) : string :=
  match s with
  | EmptyString => EmptyString
  | String c s' => if is_space c then str_lstrip s' else s
  end.

Fixpoint str_rstrip (s : string) : string :=
  match s with
  | EmptyString => EmptyString
  | String c s' =>
      match str_rstrip s' with
      | EmptyString => if is_space c then EmptyString else String c EmptyString
      | r => String c r
      end
  end.

(** [s.strip()] *)
Definition str_strip (s : string) : string := str_rstrip (str_lstrip s).

(** ** Python operators on decoded values *)

(** [bool(v)], as used by [not data]. *)
Definition truthy (v : pyval) : bool :=
  match v with
  | PNone => false
  | PBool b => b
  | PInt n => negb (n =? 0)%Z
  | PFloat f => match f with S754_zero _ => false | _ => true end
  | PStr s => negb (String.eqb s EmptyString)
  | PList l => match l with [] => false | _ => true end
  | PDict d => match d with [] => false | _ => true end
  end.

(** [d.get(k)] on the association list of a dict. *)
Fixpoint dict_get (d : list (string * pyval)) (k : string) : option pyval :=
  match d with
  | [] => None
  | (k', v) :: d' => if String.eqb k' k then Some v else dict_get d' k
  end.

(** [x == PStr k] for a list element [x]. *)
Definition eq_str (k : string) (x : pyval) : bool :=
  match x with PStr s => String.eqb s k | _ => false end.

(** [k in v] for a string [k]: key membership on a dict, element
    membership on a list, substring test on a str, and a [TypeError] on
    every other value. *)
Definition py_contains (k : string) (v : pyval) : result bool :=
  match v with
  | PDict d => Ok (match dict_get d k with Some _ => true | None => false end)
  | PList l => Ok (existsb (eq_str k) l)
  | PStr s => Ok (str_contains k s)
  | _ => Raise (Exn TypeError
                  ("argument of type " +:+ sq +:+ type_name v +:+ sq +:+ " is not iterable"))
  end.

(** [v[k]] for a string [k]. *)
Definition py_getitem_str (v : pyval) (k : string) : result pyval :=
  match v with
  | PDict d =>
      match dict_get d k with
      | Some x => Ok x
      | None => Raise (Exn KeyError (sq +:+ k +:+ sq))
      end
  | PList _ => Raise (Exn TypeError "list indices must be integers or slices, not str")
  | PStr _ => Raise (Exn TypeError "string indices must be integers, not 'str'")
  | _ => Raise (Exn TypeError (sq +:+ type_name v +:+ sq +:+ " object is not subscriptable"))
  end.

(** [v.split(sep)]: only [str] has the method. *)
Definition py_split (v : pyval) (sep : string) : result (list string) :=
  match v with
  | PStr s => Ok (str_split s sep)
  | _ => Raise (Exn AttributeError
                  (sq +:+ type_name v +:+ sq +:+ " object has no attribute 'split'"))
  end.

(** [l[i]] on a list of strings, for [i >= 0]. *)
Definition list_index (l : list string) (i : nat) : result string :=
  match l !! i with
  | Some s => Ok s
  | None => Raise (Exn IndexError "list index out of range")
  end.

(** ** Errors and effects *)

#[global] Instance result_ret : MRet result := λ A a, Ok a.
#[global] Instance result_bind : MBind result := λ A B k r,
  match r with
  | Ok a => k a
  | Raise e => Raise e
  end.
#[global] Instance result_fmap : FMap result := λ A B f r,
  match r with
  | Ok a => Ok (f a)
  | Raise e => Raise e
  end.

(** The one effect of the view that leaves the process: a call of
    [model.generate_content] with its argument list. *)
Inductive event : Type :=
| GenerateContent (contents : list pyval).

(** A computation reads the trace of calls made so far and returns a value
    or a raised exception together with the extended trace. *)
Definition M (A : Type) : Type := list event → result A * list event.

#[global] Instance M_ret : MRet M := λ A a t, (Ok a, t).
#[global] Instance M_bind : MBind M := λ A B k m t,
  match m t with
  | (Ok a, t') => k a t'
  | (Raise e, t') => (Raise e, t')
  end.

(** A pure step that may raise. *)
Definition lift {A} (r : result A) : M A := λ t, (r, t).

(** [try: body except Exception as e: handler e] *)
Definition try_except {A} (body : M A) (handler : exn → M A) : M A := λ t,
  match body t with
  | (Ok a, t') => (Ok a, t')
  | (Raise e, t') => handler e t'
  end.

(** ** The libraries the view calls *)

(** The reply object of the model; reading its [text] property may raise. *)
Record GenerateContentResponse : Type := { text : result string }.

(** The library calls whose results decide what the view answers:
    [base64.b64decode], [json.loads] and [model.generate_content], and the
    two encodings of the parsed value, [json.dumps(v, indent=2)] of line 127
    and [jsonify(v)] of line 128.  The text of the first goes to the log
    only and the response of the second carries [v], so an encoding is kept
    as what it can change: whether it raises. *)
Record env : Type := {
  b64decode : pyval → result (list Byte.byte);
  json_loads : string → result pyval;
  generate_content : list pyval → result GenerateContentResponse;
  json_dumps : pyval → result unit;
  jsonify : pyval → result unit
}.

(** [model.generate_content(contents)]: the call is recorded, then the
    model answers or fails. *)
Definition call_generate_content (E : env) (contents : list pyval)
  : M GenerateContentResponse := λ t,
  (generate_content E contents, (t ++ [GenerateContent contents])%list).

(** ** Request and response *)

(** A request as the view sees it: the address the limiter keys on and
    the outcome of [request.get_json()]. *)
Record Request : Type := { remote_addr : string; get_json : result pyval }.

(** The pair [(jsonify(body), status)] a view returns. *)
Record Response : Type := { body : pyval; status : Z }.

(** [jsonify({'error': msg}), code]: an object holding one string, which
    always encodes. *)
Definition error_response (msg : string) (code : Z) : Response :=
  {| body := PDict [("error", PStr msg)]; status := code |}.

(** ** The prompt *)

(** Replace every [#] by a double quote. *)
Fixpoint with_quotes (s : string) : string :=
  match s with
  | EmptyString => EmptyString
  | String c s' =>
      (if Ascii.eqb c "#"%char then dq else String c EmptyString) +:+ with_quotes s'
  end.

(** [sep.join(l)] *)
Fixpoint str_join (sep : string) (l : list string) : string :=
  match l with
  | [] => EmptyString
  | [s] => s
  | s :: l' => s +:+ sep +:+ str_join sep l'
  end.

(** The lines of the literal [prompt_text], with [#] written for the double
    quote. *)
Definition prompt_lines : list string :=
  [
    EmptyString;
    "        You are a highly intelligent and perceptive AI specializing in analyzing images from airport settings. Your primary task is to identify and estimate the dimensions of luggage, including suitcases, carry-ons, backpacks, and other travel bags. You should focus exclusively on objects clearly intended for carrying personal belongings during travel.";
    EmptyString;
    "When presented with an image, meticulously analyze it, focusing only on luggage items. Ignore other objects such as people, furniture, or airport infrastructure unless they provide crucial context for determining the scale of the luggage. Consider perspective, shadows, and any visual cues that might indicate the size of the luggage. If no luggage is present, indicate this clearly.";
    EmptyString;
    "For each piece of luggage detected, provide an estimation of its dimensions in centimeters, a brief descriptive text, an estimation of its volumetric capacity in cubic centimeters. **Crucially, when estimating the weight, assume the luggage is packed with typical clothing items (e.g., shirts, pants, shoes). Do not estimate the empty weight of the luggage itself. Provide an estimated total weight, including the contents.** Also estimate how much space the luggage will take up in the overhead cabin of a standard commercial airplane. Additionally calculate the sum of the length, width, and height in centimeters.";
    EmptyString;
    "Output the results in the following JSON format:";
    EmptyString;
    "```json";
    "[";
    "  {";
    "    #object_type#: #Type of luggage (e.g., suitcase, carry-on, backpack)#,";
    "    #description#: #A brief description of the luggage (e.g., 'Large, hard-shell suitcase, dark blue', 'Small, rolling carry-on with a front pocket', 'Red backpack with visible straps')#,";
    "    #length_cm#: #Estimated length in centimeters#,";
    "    #width_cm#: #Estimated width in centimeters#,";
    "    #height_cm#: #Estimated height in centimeters#,";
    "    #sum_dimensions_cm#: #Sum of length, width, and height in centimeters#,";
    "    #volumetric_capacity_cubic_cm#: #Estimated volumetric capacity in cubic centimeters#,";
    "    #estimated_weight_kg#: #Estimated total weight (including contents) in kilograms#,";
    "    #confidence#: #Confidence level in the estimations (e.g., 'High', 'Medium', 'Low')#,";
    "    #bounding_box#: {";
    "        #x_min#: #x coordinate of top-left corner#,";
    "        #y_min#: #y coordinate of top-left corner#,";
    "        #x_max#: #x coordinate of bottom-right corner#,";
    "        #y_max#: #y coordinate of bottom-right corner#";
    "    }";
    "  },";
    "    {";
    "      #object_type#:#No Luggage#,";
    "      #description#: #No luggage detected in the image.#,";
    "      #length_cm#: null,";
    "      #width_cm#: null,";
    "      #height_cm#: null,";
    "      #sum_dimensions_cm#:null,";
    "      #volumetric_capacity_cubic_cm#: null,";
    "      #estimated_weight_kg#: null,";
    "      #confidence#: null,";
    "      #bounding_box#: null";
    "  }";
    "  // ... more luggage objects if present";
    "]";
    EmptyString
  ].

(** Lines 58-100: the prompt. *)
Definition prompt_text : string := with_quotes (str_join nl prompt_lines).

(** The field names of one luggage item, in the order the prompt declares
    them. *)
Definition luggage_item_fields : list string :=
  [ "object_type"; "description"; "length_cm"; "width_cm"; "height_cm";
    "sum_dimensions_cm"; "volumetric_capacity_cubic_cm"; "estimated_weight_kg";
    "confidence"; "bounding_box" ].

(** ** The view *)

(** Lines 46-48: remove the data URL prefix if present. *)
Definition strip_data_url_prefix (image_data : pyval) : result pyval :=
  has_comma ← py_contains "," image_data;
  if (has_comma : bool) then
    parts ← py_split image_data ",";
    s ← list_index parts 1;
    mret (PStr s)
  else mret image_data.

Definition fence_json : string := "```json".
Definition fence : string := "```".

(** Lines 115-118: the text handed to [json.loads]. *)
Definition extract_json (response_text : string) : result string :=
  if str_contains fence_json response_text then
    after ← list_index (str_split response_text fence_json) 1;
    inside ← list_index (str_split after fence) 0;
    mret (str_strip inside)
  else mret (str_strip response_text).

(** Lines 124-125: ensure the value is a list. *)
Definition ensure_list (parsed_data : pyval) : pyval :=
  match parsed_data with
  | PList _ => parsed_data
  | _ => PList [parsed_data]
  end.

(** Lines 133-141: the item answered when the reply does not parse. *)
Definition error_item : pyval :=
  PDict [ ("object_type", PStr "Error");
          ("description", PStr "Failed to process luggage information");
          ("length_inches", PNone);
          ("width_inches", PNone);
          ("height_inches", PNone);
          ("confidence", PNone);
          ("bounding_box", PNone) ].

(** Lines 112-128: the body of the inner [try] once the text of the reply
    is read.  The parsed value is encoded twice before the view returns, for
    the debug line and by [jsonify]; either encoding may raise. *)
Definition parse_text (E : env) (response_text : string) : result Response :=
  json_str ← extract_json response_text;
  parsed_data ← json_loads E json_str;
  let parsed_data := ensure_list parsed_data in
  _ ← json_dumps E parsed_data;
  _ ← jsonify E parsed_data;
  mret {| body := parsed_data; status := 200 |}.

(** Lines 110-141.  The handler of [json.JSONDecodeError] formats
    [response_text] into a log line; when it was the read of
    [response.text] that raised, the name is unbound there. *)
Definition parse_reply (E : env) (response : GenerateContentResponse) : result Response :=
  match text response with
  | Raise e =>
      if is_json_decode_error e
      then Raise (Exn (OtherException "UnboundLocalError")
                    "cannot access local variable 'response_text' where it is not associated with a value")
      else Raise e
  | Ok response_text =>
      match parse_text E response_text with
      | Ok r => Ok r
      | Raise e =>
          if is_json_decode_error e
          then Ok {| body := PList [error_item]; status := 500 |}
          else Raise e
      end
  end.

(** Lines 104-107: the argument of [model.generate_content]. *)
Definition contents_for (image_data : pyval) : list pyval :=
  [ PStr prompt_text;
    PDict [("mime_type", PStr "image/jpeg"); ("data", image_data)] ].

(** Lines 36-141: the body of the outer [try]. *)
Definition estimate_size_body (E : env) (request : Request) : M Response :=
  data ← lift (get_json request);
  missing ← lift (if negb (truthy data) then Ok true
                  else negb <$> py_contains "image" data);
  if (missing : bool) then
    mret (error_response "No image provided" 400)
  else
    image_data ← lift (py_getitem_str data "image");
    image_data ← lift (strip_data_url_prefix image_data);
    match b64decode E image_data with
    | Raise _ => mret (error_response "Invalid image data" 400)
    | Ok _ =>
        response ← call_generate_content E (contents_for image_data);
        lift (parse_reply E response)
    end.

(** Lines 33-145: the view, with its catch-all handler. *)
Definition estimate_size (E : env) (request : Request) : M Response :=
  try_except (estimate_size_body E request)
    (λ e, mret (error_response (exn_str e) 500)).

(** ** Slices and search, for stating what the view extracts *)

(** [s[n:]] *)
Fixpoint str_drop (n : nat) (s : string) : string :=
  match n, s with
  | S n', String _ s' => str_drop n' s'
  | _, _ => s
  end.

(** [s[:n]] *)
Fixpoint str_take (n : nat) (s : string) : string :=
  match n, s with
  | S n', String c s' => String c (str_take n' s')
  | _, _ => EmptyString
  end.

(** [s.find(sub)], with [None] for Python's [-1]. *)
Fixpoint str_find (sub s : string) : option nat :=
  if String.prefix sub s then Some 0
  else match s with
       | EmptyString => None
       | String _ s' => S <$> str_find sub s'
       end.

(** [s.partition(sep)[0]]: the part of [s] in front of the first [sep], all
    of [s] when there is none. *)
Definition str_before (sep s : string) : string :=
  match str_find sep s with
  | Some j => str_take j s
  | None => s
  end.

(** The input after its first comma: what removing a data URL header
    leaves. *)
Definition after_first_comma (s : string) : option string :=
  i ← str_find "," s; Some (str_drop (S i) s).

(** The content between the first [fence_json] marker and the first
    [fence] marker that follows it. *)
Definition fenced_content (response_text : string) : option string :=
  i ← str_find fence_json response_text;
  let after := str_drop (i + String.length fence_json) response_text in
  j ← str_find fence after;
  Some (str_take j after).

(** A second [fence_json] marker begins one or two characters into the
    closing fence of the first block. *)
Definition fence_overlap (response_text : string) : bool :=
  match str_find fence_json response_text with
  | Some i =>
      let after := str_drop (i + String.length fence_json) response_text in
      match str_find fence after with
      | Some k =>
          String.prefix fence_json (str_drop (k + 1) after) ||
          String.prefix fence_json (str_drop (k + 2) after)
      | None => false
      end
  | None => false
  end.



(** [isinstance(v, list)] *)
Definition is_list (v : pyval) : bool :=
  match v with PList _ => true | _ => false end.

(** The request passes every check in front of the call to the model,
    which is then sent [image_data]: lines 36-55 neither return nor
    raise. *)
Definition reaches_model (E : env) (request : Request) (image_data : pyval) : Prop :=
  ∃ data raw,
    get_json request = Ok data ∧
    truthy data = true ∧
    py_contains "image" data = Ok true ∧
    py_getitem_str data "image" = Ok raw ∧
    strip_data_url_prefix raw = Ok image_data ∧
    is_ok (b64decode E image_data) = true.

(** ** A reference environment *)

(** The base64 alphabet. *)
Definition b64_digit (c : ascii) : option N :=
  let n := N_of_ascii c in
  if ((65 <=? n) && (n <=? 90))%N then Some (n - 65)%N
  else if ((97 <=? n) && (n <=? 122))%N then Some (n - 71)%N
  else if ((48 <=? n) && (n <=? 57))%N then Some (n + 4)%N
  else if (n =? 43)%N then Some 62%N
  else if (n =? 47)%N then Some 63%N
  else None.

Definition byte_of_N (n : N) : Byte.byte :=
  match Byte.of_N (n mod 256) with Some b => b | None => Byte.x00 end.

(** [binascii.a2b_base64] in its default, lenient mode: characters outside
    the alphabet are skipped, a pad sequence that completes a quad ends the
    scan, and a trailing incomplete quad is an error.  [out] is the output
    so far, in reverse. *)
Fixpoint a2b_base64_from (s : string) (quad_pos : nat) (leftchar : N) (pads : nat)
    (out : list Byte.byte) : result (list Byte.byte) :=
  match s with
  | EmptyString =>
      match quad_pos with
      | 0 => Ok (rev out)
      | 1 =>
          Raise (Exn BinasciiError
                   ("Invalid base64-encoded string: number of data characters ("
                    +:+ pretty (length out / 3 * 4 + 1)
                    +:+ ") cannot be 1 more than a multiple of 4"))
      | _ => Raise (Exn BinasciiError "Incorrect padding")
      end
  | String c s' =>
      if Ascii.eqb c "="%char then
        if (2 <=? quad_pos)%nat then
          if (4 <=? quad_pos + S pads)%nat then Ok (rev out)
          else a2b_base64_from s' quad_pos leftchar (S pads) out
        else a2b_base64_from s' quad_pos leftchar pads out
      else
        match b64_digit c with
        | None => a2b_base64_from s' quad_pos leftchar pads out
        | Some this_ch =>
            match quad_pos with
            | 0 => a2b_base64_from s' 1 this_ch 0 out
            | 1 => a2b_base64_from s' 2 (N.land this_ch 15) 0
                     (byte_of_N (N.lor (N.shiftl leftchar 2) (N.shiftr this_ch 4)) :: out)
            | 2 => a2b_base64_from s' 3 (N.land this_ch 3) 0
                     (byte_of_N (N.lor (N.shiftl leftchar 4) (N.shiftr this_ch 2)) :: out)
            | _ => a2b_base64_from s' 0 0%N 0
                     (byte_of_N (N.lor (N.shiftl leftchar 6) this_ch) :: out)
            end
        end
  end.

Fixpoint all_ascii (s : string) : bool :=
  match s with
  | EmptyString => true
  | String c s' => (N_of_ascii c <? 128)%N && all_ascii s'
  end.

(** [base64.b64decode(s)]: a [str] must be ASCII and is then decoded; a
    value that is neither [str] nor bytes-like is a [TypeError]. *)
Definition py_b64decode (s : pyval) : result (list Byte.byte) :=
  match s with
  | PStr s =>
      if all_ascii s then a2b_base64_from s 0 0%N 0 []
      else Raise (Exn ValueError "string argument should contain only ASCII characters")
  | _ =>
      Raise (Exn TypeError
               ("argument should be a bytes-like object or ASCII string, not "
                +:+ sq +:+ type_name s +:+ sq))
  end.

(** A decoder for the fragment of JSON made of [null], [true], [false],
    integers, strings with the single-character escapes, arrays and
    objects; it stands in for [json.loads] in the examples.  Text outside
    the fragment is reported as a [JSONDecodeError]. *)
Definition is_json_ws (c : ascii) : bool :=
  let n := nat_of_ascii c in
  ((n =? 32) || (n =? 9) || (n =? 10) || (n =? 13))%nat.

Fixpoint skip_ws (s : string) : string :=
  match s with
  | EmptyString => EmptyString
  | String c s' => if is_json_ws c then skip_ws s' else s
  end.

Definition unescape (c : ascii) : option ascii :=
  let n := nat_of_ascii c in
  if (n =? 34)%nat then Some c
  else if (n =? 92)%nat then Some c
  else if (n =? 47)%nat then Some c
  else if (n =? 110)%nat then Some (ascii_of_nat 10)
  else if (n =? 116)%nat then Some (ascii_of_nat 9)
  else if (n =? 114)%nat then Some (ascii_of_nat 13)
  else if (n =? 98)%nat then Some (ascii_of_nat 8)
  else if (n =? 102)%nat then Some (ascii_of_nat 12)
  else None.

(** The characters of a string literal after its opening quote. *)
Fixpoint scan_string (s acc : string) : option (string * string) :=
  match s with
  | EmptyString => None
  | String c s' =>
      let n := nat_of_ascii c in
      if (n =? 34)%nat then Some (acc, s')
      else if (n <? 32)%nat then None
      else if (n =? 92)%nat then
        match s' with
        | String e s'' =>
            match unescape e with
            | Some x => scan_string s'' (acc +:+ String x EmptyString)
            | None => None
            end
        | EmptyString => None
        end
      else scan_string s' (acc +:+ String c EmptyString)
  end.

Definition digit_of (c : ascii) : option Z :=
  let n := nat_of_ascii c in
  if ((48 <=? n) && (n <=? 57))%nat then Some (Z.of_nat n - 48)%Z else None.

Fixpoint scan_digits (s : string) (acc : Z) : Z * string :=
  match s with
  | EmptyString => (acc, s)
  | String c s' =>
      match digit_of c with
      | Some d => scan_digits s' (10 * acc + d)%Z
      | None => (acc, s)
      end
  end.

(** An integer literal: no leading zero, no fraction, no exponent. *)
Definition scan_int (s : string) : option (Z * string) :=
  match s with
  | String c s' =>
      match digit_of c with
      | Some d =>
          let '(n, rest) := if (d =? 0)%Z then (0%Z, s') else scan_digits s' d in
          match rest with
          | String x _ =>
              if existsb (Ascii.eqb x) ["."; "e"; "E"]%char then None
              else if (d =? 0)%Z && bool_decide (is_Some (digit_of x)) then None
              else Some (n, rest)
          | EmptyString => Some (n, rest)
          end
      | None => None
      end
  | EmptyString => None
  end.

(** [d[k] = v] *)
Fixpoint dict_set (d : list (string * pyval)) (k : string) (v : pyval)
  : list (string * pyval) :=
  match d with
  | [] => [(k, v)]
  | (k', v') :: d' => if String.eqb k' k then (k', v) :: d' else (k', v') :: dict_set d' k v
  end.

Fixpoint scan_value (fuel : nat) (s : string) : option (pyval * string) :=
  match fuel with
  | O => None
  | S fuel' =>
      match skip_ws s with
      | EmptyString => None
      | String c s1 as s0 =>
          let n := nat_of_ascii c in
          if (n =? 91)%nat then
            match skip_ws s1 with
            | String "]" s2 => Some (PList [], s2)
            | _ => '(l, s2) ← scan_items fuel' s1; Some (PList l, s2)
            end
          else if (n =? 123)%nat then
            match skip_ws s1 with
            | String "}" s2 => Some (PDict [], s2)
            | _ => '(d, s2) ← scan_members fuel' s1 []; Some (PDict d, s2)
            end
          else if (n =? 34)%nat then
            '(str, s2) ← scan_string s1 EmptyString; Some (PStr str, s2)
          else if String.prefix "null" s0 then Some (PNone, str_drop 4 s0)
          else if String.prefix "true" s0 then Some (PBool true, str_drop 4 s0)
          else if String.prefix "false" s0 then Some (PBool false, str_drop 5 s0)
          else if (n =? 45)%nat then
            '(k, s2) ← scan_int s1; Some (PInt (- k), s2)
          else '(k, s2) ← scan_int s0; Some (PInt k, s2)
      end
  end
with scan_items (fuel : nat) (s : string) : option (list pyval * string) :=
  match fuel with
  | O => None
  | S fuel' =>
      '(v, s1) ← scan_value fuel' s;
      match skip_ws s1 with
      | String "," s2 => '(l, s3) ← scan_items fuel' s2; Some (v :: l, s3)
      | String "]" s2 => Some ([v], s2)
      | _ => None
      end
  end
with scan_members (fuel : nat) (s : string) (d : list (string * pyval))
  : option (list (string * pyval) * string) :=
  match fuel with
  | O => None
  | S fuel' =>
      match skip_ws s with
      | String q s1 =>
          if (nat_of_ascii q =? 34)%nat then
            '(k, s2) ← scan_string s1 EmptyString;
            match skip_ws s2 with
            | String ":" s3 =>
                '(v, s4) ← scan_value fuel' s3;
                match skip_ws s4 with
                | String "," s5 => scan_members fuel' s5 (dict_set d k v)
                | String "}" s5 => Some (dict_set d k v, s5)
                | _ => None
                end
            | _ => None
            end
          else None
      | EmptyString => None
      end
  end.

Definition py_json_loads (s : string) : result pyval :=
  match scan_value (2 * String.length s + 2) s with
  | Some (v, rest) =>
      match skip_ws rest with
      | EmptyString => Ok v
      | _ => Raise (Exn JSONDecodeError "Extra data")
      end
  | None => Raise (Exn JSONDecodeError "Expecting value")
  end.

(** How deeply lists and dicts are nested in a value. *)
Fixpoint nesting (v : pyval) : nat :=
  match v with
  | PList l =>
      S ((fix go (l : list pyval) : nat :=
            match l with
            | [] => 0
            | x :: l' => Nat.max (nesting x) (go l')
            end) l)
  | PDict d =>
      S ((fix go (d : list (string * pyval)) : nat :=
            match d with
            | [] => 0
            | (_, x) :: d' => Nat.max (nesting x) (go d')
            end) d)
  | _ => 0%nat
  end.

(** The nesting an encoder can follow before the interpreter's recursion
    limit (1000 by default) stops it.  The figure stands for the room left
    on the stack inside the view; the exact value depends on the interpreter
    and on the server. *)
Definition encoder_room : nat := 900.

(** A reference encoder: values decoded from JSON always encode, unless
    they are nested deeper than the recursion limit allows. *)
Definition py_encode (v : pyval) : result unit :=
  if (nesting v <=? encoder_room)%nat then Ok tt
  else Raise (Exn (OtherException "RecursionError") "maximum recursion depth exceeded").

(** The reference environment: the decoders and the encoder above, and a
    model that answers every call with the given reply. *)
Definition ref_env (reply : result GenerateContentResponse) : env :=
  {| b64decode := py_b64decode;
     json_loads := py_json_loads;
     generate_content := λ _, reply;
     json_dumps := py_encode;
     jsonify := py_encode |}.

(** How deeply the brackets of a JSON text are nested, outside its string
    literals: [depth] is the current nesting, [deepest] the largest so far. *)
Fixpoint text_nesting (s : string) (in_str esc : bool) (depth deepest : nat) : nat :=
  match s with
  | EmptyString => deepest
  | String c s' =>
      let n := nat_of_ascii c in
      if in_str then
        if esc then text_nesting s' true false depth deepest
        else if (n =? 92)%nat then text_nesting s' true true depth deepest
        else if (n =? 34)%nat then text_nesting s' false false depth deepest
        else text_nesting s' true false depth deepest
      else if (n =? 34)%nat then text_nesting s' true false depth deepest
      else if ((n =? 91) || (n =? 123))%nat
           then text_nesting s' false false (S depth) (Nat.max (S depth) deepest)
      else if ((n =? 93) || (n =? 125))%nat
           then text_nesting s' false false (Nat.pred depth) deepest
      else text_nesting s' false false depth deepest
  end.

Definition decoder_room : nat := 990.

(** The reference decoder under the recursion limit: text nested deeper
    than the limit allows stops the scanner with a [RecursionError], whether
    or not it would have parsed. *)
Definition py_json_loads_bounded (s : string) : result pyval :=
  if (text_nesting s false false 0 0 <=? decoder_room)%nat then py_json_loads s
  else Raise (Exn (OtherException "RecursionError")
                "maximum recursion depth exceeded while decoding a JSON array from a unicode string").

(** The reference environment with the bounded decoder. *)
Definition bounded_env (reply : result GenerateContentResponse) : env :=
  {| b64decode := py_b64decode;
     json_loads := py_json_loads_bounded;
     generate_content := λ _, reply;
     json_dumps := py_encode;
     jsonify := py_encode |}.

(** [s * n] *)
Fixpoint str_repeat (s : string) (n : nat) : string :=
  match n with
  | O => EmptyString
  | S n' => s +:+ str_repeat s n'
  end.

(** An array nested 980 deep, as text. *)
Definition deep_reply : string := str_repeat "[" 980 +:+ str_repeat "]" 980.

(** Two thousand opening brackets, twice what the default recursion limit
    lets a scanner follow. *)
Definition unclosed_reply : string := str_repeat "[" 2000.




Definition text_reply (t : string) : result GenerateContentResponse :=
  Ok {| text := Ok t |}.

(** A reply holding one fenced block with one suitcase. *)
Definition suitcase_reply : string :=
  fence_json +:+ nl +:+
  with_quotes "[{#object_type#:#suitcase#,#description#:#test#,#length_cm#:#60#,#width_cm#:#40#,#height_cm#:#25#,#sum_dimensions_cm#:#125#,#volumetric_capacity_cubic_cm#:#60000#,#estimated_weight_kg#:#8#,#confidence#:#High#,#bounding_box#:{#x_min#:#10#,#y_min#:#10#,#x_max#:#200#,#y_max#:#300#}}]"
  +:+ nl +:+ fence.

Definition suitcase_item : pyval :=
  PDict [ ("object_type", PStr "suitcase"); ("description", PStr "test");
          ("length_cm", PStr "60"); ("width_cm", PStr "40"); ("height_cm", PStr "25");
          ("sum_dimensions_cm", PStr "125");
          ("volumetric_capacity_cubic_cm", PStr "60000");
          ("estimated_weight_kg", PStr "8"); ("confidence", PStr "High");
          ("bounding_box",
           PDict [ ("x_min", PStr "10"); ("y_min", PStr "10");
                   ("x_max", PStr "200"); ("y_max", PStr "300") ]) ].

(** A reply holding one fenced block with a single object, not an array. *)
Definition object_reply : string :=
  fence_json +:+ nl +:+ with_quotes "{#object_type#: #backpack#}" +:+ nl +:+ fence.

(** A well-formed request: a data URL with a base64 payload. *)
Definition jpeg_post : Request :=
  {| remote_addr := "203.0.113.7";
     get_json := Ok (PDict [("image", PStr "data:image/jpeg;base64,/9j/4AAQ")]) |}.

(** A POST from [addr] whose body decodes to [data]. *)
Definition post_json (addr : string) (data : pyval) : Request :=
  {| remote_addr := addr; get_json := Ok data |}.

(** ** The rate limiter *)

(** The limit string of line 32, ["10 per minute"]. *)
Definition limit_amount : nat := 10.
Definition limit_period : nat := 60.

(** One counter of the limiter's in-memory storage: the hits counted in
    the current window and the time, in seconds, at which it expires. *)
Record Window : Type := { hits : nat; expiry : nat }.

(** Modelled from the spec: the limiter is the [flask_limiter] package,
    which is not among the sources; only its configuration is (line 23:
    keyed by remote address, in-memory storage; line 32: 10 per minute).
    The spec describes a cap of 10 invocations per minute per client
    address, counters keyed by client address with a window, held in
    process memory.  A hit at time [now] opens a window of one period when
    the address has no live counter, counts itself, and is let through while
    the count stays within the limit. *)
Definition limiter_hit (now : nat) (key : string) (storage : gmap string Window)
  : bool * gmap string Window :=
  let live :=
    match storage !! key with
    | Some w => if (expiry w <=? now)%nat then None else Some w
    | None => None
    end in
  let w :=
    match live with
    | Some w => {| hits := S (hits w); expiry := expiry w |}
    | None => {| hits := 1; expiry := now + limit_period |}
    end in
  ((hits w <=? limit_amount)%nat, <[key := w]> storage).

(** What the process holds between requests: the limiter's counters and
    the calls made to the model so far. *)
Record app_state : Type := { storage : gmap string Window; calls : list event }.

(** A request either reaches the view or is turned away by the limiter
    with its own rejection response. *)
Inductive outcome : Type :=
| Handled (r : result Response)
| Rejected.

(** Lines 31-33: the route, with the limiter's check in front of the view. *)
Definition serve (E : env) (now : nat) (request : Request) (st : app_state)
  : outcome * app_state :=
  let '(allowed, storage') := limiter_hit now (remote_addr request) (storage st) in
  if (allowed : bool) then
    let '(r, calls') := estimate_size E request (calls st) in
    (Handled r, {| storage := storage'; calls := calls' |})
  else (Rejected, {| storage := storage'; calls := calls st |}).

(** A run of the server over requests stamped with their arrival times. *)
Fixpoint serve_all (E : env) (reqs : list (nat * Request)) (st : app_state)
  : list outcome * app_state :=
  match reqs with
  | [] => ([], st)
  | (now, request) :: reqs' =>
      let '(o, st') := serve E now request st in
      let '(os, st'') := serve_all E reqs' st' in
      (o :: os, st'')
  end.

Definition is_handled (o : outcome) : bool :=
  match o with Handled _ => true | Rejected => false end.

Definition from_addr (addr : string) (tr : nat * Request) : bool :=
  String.eqb (remote_addr tr.2) addr.

(** The outcomes of the requests that came from [addr]. *)
Fixpoint outcomes_of (addr : string) (reqs : list (nat * Request)) (os : list outcome)
  : list outcome :=
  match reqs, os with
  | tr :: reqs', o :: os' =>
      if from_addr addr tr then o :: outcomes_of addr reqs' os'
      else outcomes_of addr reqs' os'
  | _, _ => []
  end.

(** No live counter for [addr] at time [now]. *)
Definition window_closed (now : nat) (addr : string) (storage : gmap string Window) : Prop :=
  match storage !! addr with
  | Some w => (expiry w ≤ now)%nat
  | None => True
  end.

(** A string that is empty or begins with a character that is not white
    space. *)
Definition starts_clean (s : string) : Prop :=
  match s with
  | EmptyString => True
  | String c _ => is_space c = false
  end.

(** * Properties *)

(** ** Strings *)

Lemma app_cons c (s1 s2 : string) : String c s1 +:+ s2 = String c (s1 +:+ s2).
Proof. reflexivity. Qed.

Lemma app_empty_l (s : string) : EmptyString +:+ s = s.
Proof. reflexivity. Qed.

Lemma app_empty_r (s : string) : s +:+ EmptyString = s.
Proof. induction s as [|c s IH]; [reflexivity|]. by rewrite app_cons, IH. Qed.

Lemma app_app (s1 s2 s3 : string) : (s1 +:+ s2) +:+ s3 = s1 +:+ (s2 +:+ s3).
Proof. induction s1 as [|c s1 IH]; [reflexivity|]. by rewrite !app_cons, IH. Qed.

Lemma str_drop_0 (s : string) : str_drop 0 s = s.
Proof. by destruct s. Qed.

Lemma str_drop_empty n : str_drop n EmptyString = EmptyString.
Proof. by destruct n. Qed.

Lemma prefix_empty_r (sub : string) :
  sub ≠ EmptyString → String.prefix sub EmptyString = false.
Proof. by destruct sub. Qed.

(** Passing over the rest of a matched separator is dropping it. *)
Lemma split_from_skip sep k cur s :
  split_from sep k cur s = split_from sep 0 cur (str_drop k s).
Proof.
  revert k. induction s as [|c s IH]; intros k.
  - by rewrite str_drop_empty.
  - destruct k as [|k]; [by rewrite str_drop_0|]. simpl. apply IH.
Qed.

(** Without an occurrence of the separator, [split] returns the string whole. *)
Lemma split_from_find_none sep cur s :
  str_find sep s = None → split_from sep 0 cur s = [cur +:+ s].
Proof.
  revert cur. induction s as [|c s IH]; intros cur Hf.
  - by rewrite app_empty_r.
  - cbn [str_find] in Hf. cbn [split_from].
    destruct (String.prefix sep (String c s)); [done|].
    destruct (str_find sep s) eqn:Hs; [done|].
    rewrite IH by done. by rewrite app_app.
Qed.

(** With a first occurrence at [i], [split] cuts there and goes on behind
    the separator. *)
Lemma split_from_find_some sep cur s i :
  sep ≠ EmptyString →
  str_find sep s = Some i →
  split_from sep 0 cur s =
    (cur +:+ str_take i s) :: split_from sep 0 EmptyString (str_drop (i + String.length sep) s).
Proof.
  intros Hsep. revert cur i. induction s as [|c s IH]; intros cur i Hf.
  - cbn [str_find] in Hf. by rewrite prefix_empty_r in Hf.
  - cbn [str_find] in Hf. cbn [split_from].
    destruct (String.prefix sep (String c s)) eqn:Hp.
    + injection Hf as <-. rewrite split_from_skip.
      destruct sep as [|c' sep']; [done|].
      cbn [String.length str_take]. rewrite app_empty_r.
      replace (S (String.length sep') - 1)%nat with (String.length sep') by lia.
      reflexivity.
    + destruct (str_find sep s) as [j|] eqn:Hs; [|done].
      injection Hf as <-. rewrite (IH _ j) by done.
      by rewrite app_app.
Qed.

Lemma str_contains_find sub s :
  str_contains sub s = bool_decide (is_Some (str_find sub s)).
Proof.
  induction s as [|c s IH]; cbn [str_contains str_find].
  - by destruct (String.prefix sub EmptyString).
  - destruct (String.prefix sub (String c s)); [done|].
    rewrite orb_false_l, IH. by destruct (str_find sub s).
Qed.

Lemma str_contains_true sub s :
  str_contains sub s = true → ∃ i, str_find sub s = Some i.
Proof.
  rewrite str_contains_find. intros [i Hi]%bool_decide_eq_true. eauto.
Qed.

Lemma str_contains_false sub s :
  str_contains sub s = false → str_find sub s = None.
Proof.
  rewrite str_contains_find. intros H%bool_decide_eq_false.
  destruct (str_find sub s); [|done]. destruct H; eauto.
Qed.

(** The first piece of a split is the part in front of the first separator. *)
Lemma str_split_before s sep :
  sep ≠ EmptyString → ∃ tl, str_split s sep = str_before sep s :: tl.
Proof.
  intros Hsep. unfold str_split, str_before.
  destruct (str_find sep s) as [j|] eqn:Hf.
  - rewrite (split_from_find_some _ _ _ j) by done. eauto.
  - rewrite split_from_find_none by done. eauto.
Qed.

(** The second piece is what lies between the first separator and the next. *)
Lemma str_split_second s sep i :
  sep ≠ EmptyString →
  str_find sep s = Some i →
  ∃ tl, str_split s sep =
          str_take i s :: str_before sep (str_drop (i + String.length sep) s) :: tl.
Proof.
  intros Hsep Hf. unfold str_split.
  rewrite (split_from_find_some _ _ _ i) by done.
  destruct (str_split_before (str_drop (i + String.length sep) s) sep Hsep) as [tl Htl].
  unfold str_split in Htl. rewrite Htl. eauto.
Qed.

Lemma prefix_app_l a x s :
  String.prefix (a +:+ x) s = true → String.prefix a s = true.
Proof.
  revert s. induction a as [|c a IH]; intros s H; [by destruct s|].
  rewrite app_cons in H. destruct s as [|b s]; [done|].
  cbn [String.prefix] in *. destruct (ascii_dec c b); [by apply IH|done].
Qed.

Lemma prefix_take a s p :
  String.prefix a (str_take p s) = true → String.prefix a s = true.
Proof.
  revert s p. induction a as [|c a IH]; intros s p H; [by destruct s|].
  destruct s as [|b s], p as [|p]; try done.
  cbn [str_take String.prefix] in *. destruct (ascii_dec c b); [by eapply IH|done].
Qed.

Lemma prefix_take_ge a s p :
  (String.length a ≤ p)%nat →
  String.prefix a s = true → String.prefix a (str_take p s) = true.
Proof.
  revert s p. induction a as [|c a IH]; intros s p Hp H.
  - by destruct (str_take p s).
  - destruct s as [|b s]; [done|]. destruct p as [|p]; [cbn in Hp; lia|].
    cbn [str_take String.prefix String.length] in *.
    destruct (ascii_dec c b); [apply IH; [lia|done]|done].
Qed.

(** The occurrence [str_find] reports is one. *)
Lemma str_find_prefix a s k :
  str_find a s = Some k → String.prefix a (str_drop k s) = true.
Proof.
  revert k. induction s as [|c s IH]; intros k H; cbn [str_find] in H.
  - destruct (String.prefix a EmptyString) eqn:Hp; [|done].
    injection H as <-. done.
  - destruct (String.prefix a (String c s)) eqn:Hp.
    + injection H as <-. done.
    + destruct (str_find a s) as [j|]; [|done]. injection H as <-.
      cbn [str_drop]. by apply IH.
Qed.

(** ... and it is the first. *)
Lemma str_find_first a s k q :
  a ≠ EmptyString →
  str_find a s = Some k → String.prefix a (str_drop q s) = true → (k ≤ q)%nat.
Proof.
  intros Ha. revert k q. induction s as [|c s IH]; intros k q H Hq; cbn [str_find] in H.
  - by rewrite prefix_empty_r in H.
  - destruct (String.prefix a (String c s)) eqn:Hp.
    + injection H as <-. lia.
    + destruct (str_find a s) as [j|] eqn:Hj; [|done]. injection H as <-.
      destruct q as [|q]; [rewrite str_drop_0 in Hq; congruence|].
      cbn [str_drop] in Hq. specialize (IH j q eq_refl Hq). lia.
Qed.

Lemma str_take_take k p s : (k ≤ p)%nat → str_take k (str_take p s) = str_take k s.
Proof.
  revert p s. induction k as [|k IH]; intros p s Hkp.
  - by destruct (str_take p s), s.
  - destruct p as [|p]; [lia|]. destruct s as [|c s]; [done|].
    cbn [str_take]. rewrite IH by lia. done.
Qed.

(** Cutting the string behind an occurrence keeps it the first one. *)
Lemma str_find_take_ge a s k p :
  str_find a s = Some k → (k + String.length a ≤ p)%nat →
  str_find a (str_take p s) = Some k.
Proof.
  revert k p. induction s as [|c s IH]; intros k p H Hp; cbn [str_find] in H.
  - destruct (String.prefix a EmptyString) eqn:Hq; [|done].
    injection H as <-. destruct a; [|done]. by destruct p.
  - destruct (String.prefix a (String c s)) eqn:Hq.
    + injection H as <-.
      pose proof (prefix_take_ge a (String c s) p ltac:(lia) Hq) as Ht.
      destruct (str_take p (String c s)); cbn [str_find]; by rewrite Ht.
    + destruct (str_find a s) as [j|] eqn:Hj; [|done]. injection H as <-.
      destruct p as [|p]; [lia|]. cbn [str_take str_find].
      destruct (String.prefix a (String c (str_take p s))) eqn:Ht.
      * apply (prefix_take a (String c s) (S p)) in Ht. congruence.
      * rewrite (IH j p) by (done || lia). done.
Qed.

(** Cutting the string at its first occurrence leaves none. *)
Lemma str_find_take_eq a s k :
  a ≠ EmptyString → str_find a s = Some k → str_find a (str_take k s) = None.
Proof.
  intros Ha. revert k. induction s as [|c s IH]; intros k H; cbn [str_find] in H.
  - by rewrite prefix_empty_r in H.
  - destruct (String.prefix a (String c s)) eqn:Hq.
    + injection H as <-. cbn [str_take str_find]. by rewrite prefix_empty_r.
    + destruct (str_find a s) as [j|] eqn:Hj; [|done]. injection H as <-.
      cbn [str_take str_find].
      destruct (String.prefix a (String c (str_take j s))) eqn:Ht.
      * apply (prefix_take a (String c s) (S j)) in Ht. congruence.
      * rewrite (IH j) by done. done.
Qed.

(** Cutting first at a longer marker [a +:+ x] and then at [a] is cutting at
    [a], unless the longer marker begins inside the first occurrence of [a]. *)
Lemma str_before_before a x s k :
  a ≠ EmptyString →
  str_find a s = Some k →
  (∀ p, (k < p < k + String.length a)%nat →
        String.prefix (a +:+ x) (str_drop p s) = false) →
  str_before a (str_before (a +:+ x) s) = str_take k s.
Proof.
  intros Ha Hk Hclear. unfold str_before at 2.
  destruct (str_find (a +:+ x) s) as [p|] eqn:Hp.
  - pose proof (str_find_prefix _ _ _ Hp) as Hpre.
    pose proof (str_find_first a s k p Ha Hk (prefix_app_l _ _ _ Hpre)) as Hle.
    destruct (decide (p = k)) as [->|Hne].
    + unfold str_before. by rewrite (str_find_take_eq a s k).
    + destruct (decide (p < k + String.length a)%nat) as [Hlt|Hge].
      * rewrite Hclear in Hpre by lia. done.
      * unfold str_before. rewrite (str_find_take_ge a s k p) by (done || lia).
        apply str_take_take. lia.
  - unfold str_before. by rewrite Hk.
Qed.

(** ** The steps of the view *)

(** On a string without a comma the prefix strip changes nothing. *)
Lemma strip_data_url_prefix_no_comma s :
  str_find "," s = None → strip_data_url_prefix (PStr s) = Ok (PStr s).
Proof.
  intros Hf. unfold strip_data_url_prefix. cbn [py_contains mbind result_bind].
  rewrite str_contains_find, Hf. reflexivity.
Qed.

(** On a string with a comma it keeps what lies between the first comma and
    the second, or the end. *)
Lemma strip_data_url_prefix_comma s i :
  str_find "," s = Some i →
  strip_data_url_prefix (PStr s) = Ok (PStr (str_before "," (str_drop (S i) s))).
Proof.
  intros Hf. unfold strip_data_url_prefix. cbn [py_contains py_split mbind result_bind].
  rewrite str_contains_find, Hf. cbn [bool_decide decide_rel].
  destruct (str_split_second s "," i) as [tl Htl]; [done..|].
  rewrite Htl. cbn [String.length]. rewrite Nat.add_1_r. reflexivity.
Qed.

(** The prefix strip never fails on a string and returns a string. *)
Lemma strip_data_url_prefix_str s :
  ∃ p, strip_data_url_prefix (PStr s) = Ok (PStr p).
Proof.
  destruct (str_find "," s) as [i|] eqn:Hf.
  - rewrite (strip_data_url_prefix_comma s i Hf). eauto.
  - rewrite (strip_data_url_prefix_no_comma s Hf). eauto.
Qed.

(** With exactly one comma, the strip leaves all that follows it. *)
Lemma strip_data_url_prefix_one_comma s i :
  str_find "," s = Some i →
  str_find "," (str_drop (S i) s) = None →
  PStr <$> after_first_comma s = Some (PStr (str_drop (S i) s)) ∧
  strip_data_url_prefix (PStr s) = Ok (PStr (str_drop (S i) s)).
Proof.
  intros Hf Hn. split.
  - unfold after_first_comma. by rewrite Hf.
  - rewrite (strip_data_url_prefix_comma s i Hf). unfold str_before. by rewrite Hn.
Qed.

Lemma extract_json_unfenced t :
  str_contains fence_json t = false → extract_json t = Ok (str_strip t).
Proof. intros H. unfold extract_json. by rewrite H. Qed.

(** With a marker at [i], the extracted text is cut from what follows it:
    first at the next [fence_json] marker, then at the first [fence]. *)
Lemma extract_json_fenced t i :
  str_find fence_json t = Some i →
  extract_json t =
    Ok (str_strip
          (str_before fence
             (str_before fence_json (str_drop (i + String.length fence_json) t)))).
Proof.
  intros Hf. unfold extract_json. rewrite str_contains_find, Hf.
  cbn [bool_decide decide_rel].
  destruct (str_split_second t fence_json i) as [tl Htl]; [done..|].
  rewrite Htl.
  destruct (str_split_before
              (str_before fence_json (str_drop (i + String.length fence_json) t)) fence)
    as [tl' Htl']; [done|].
  cbn [list_index lookup list_lookup mbind result_bind].
  rewrite Htl'. reflexivity.
Qed.

(** The text handed to the JSON decoder always exists. *)
Lemma extract_json_total t : ∃ js, extract_json t = Ok js.
Proof.
  destruct (str_find fence_json t) as [i|] eqn:Hf.
  - rewrite (extract_json_fenced t i Hf). eauto.
  - rewrite extract_json_unfenced; [eauto|].
    rewrite str_contains_find, Hf. reflexivity.
Qed.

(** When the reply holds a fenced block and no second marker begins inside
    its closing fence, the extracted text is the trimmed content of the
    block. *)
Lemma extract_json_fenced_content t mid :
  fenced_content t = Some mid →
  fence_overlap t = false →
  extract_json t = Ok (str_strip mid).
Proof.
  unfold fenced_content, fence_overlap. intros H Hov.
  destruct (str_find fence_json t) as [i|] eqn:Hf; [|done].
  rewrite (extract_json_fenced t i Hf).
  cbn [mbind option_bind] in H.
  destruct (str_find fence (str_drop (i + String.length fence_json) t))
    as [k|] eqn:Hk; [|done].
  cbn [mbind option_bind] in H. injection H as <-.
  apply orb_false_elim in Hov as [H1 H2].
  change fence_json with (fence +:+ "json") at 1.
  rewrite (str_before_before fence "json" _ k); [done..|].
  intros p Hp. cbn [fence String.length] in Hp.
  assert (p = k + 1 ∨ p = k + 2)%nat as [-> | ->] by lia; done.
Qed.

Ltac unfold_view :=
  unfold estimate_size, try_except, estimate_size_body, call_generate_content, lift,
    mbind, M_bind, mret, M_ret.

(** A request that passes the checks is answered from the model's reply,
    with one call recorded. *)
Lemma estimate_size_reaches_model E request image_data tr :
  reaches_model E request image_data →
  estimate_size E request tr =
    (Ok match generate_content E (contents_for image_data) with
        | Ok response =>
            match parse_reply E response with
            | Ok r => r
            | Raise e => error_response (exn_str e) 500
            end
        | Raise e => error_response (exn_str e) 500
        end,
     (tr ++ [GenerateContent (contents_for image_data)])%list).
Proof.
  intros (data & raw & Hj & Ht & Hc & Hg & Hs & Hb).
  unfold_view. rewrite Hj, Ht, Hc. cbn [negb fmap result_fmap].
  rewrite Hg, Hs.
  destruct (b64decode E image_data); [|done].
  destruct (generate_content E (contents_for image_data)) as [response|e]; [|done].
  by destruct (parse_reply E response).
Qed.


(** A JSON object whose ["image"] is a string reaches the model as soon as
    the decoder accepts the stripped string. *)
Lemma reaches_model_intro E request d s payload :
  get_json request = Ok (PDict d) →
  dict_get d "image" = Some (PStr s) →
  strip_data_url_prefix (PStr s) = Ok payload →
  is_ok (b64decode E payload) = true →
  reaches_model E request payload.
Proof.
  intros Hj Hd Hs Hb. exists (PDict d), (PStr s).
  cbn [py_contains py_getitem_str truthy]. rewrite Hd.
  repeat split; try done. by destruct d.
Qed.

(** ** Missing image *)

(** An object that lacks the key fails the membership test of line 38. *)
Lemma py_contains_lacking d k :
  dict_get d k = None → py_contains k (PDict d) = Ok false.
Proof. intros H. cbn [py_contains]. by rewrite H. Qed.




(** ** Invalid base64 *)



(** What the reference decoder takes for valid: characters outside the
    alphabet are passed over, so only the count of the alphabet characters
    and the padding decide. *)
Example py_b64decode_examples :
  py_b64decode (PStr "QUJD") = Ok [Byte.x41; Byte.x42; Byte.x43] ∧
  py_b64decode (PStr "QUI=") = Ok [Byte.x41; Byte.x42] ∧
  py_b64decode (PStr "QU JD!") = Ok [Byte.x41; Byte.x42; Byte.x43] ∧
  py_b64decode (PStr "QUI") = Raise (Exn BinasciiError "Incorrect padding") ∧
  is_ok (py_b64decode (PStr "QUJDA")) = false.
Proof. repeat split; vm_compute; reflexivity. Qed.




(** ** Prefix strip *)

(** C3 (the code at the failing input): on an ['image'] string with two
    commas the strip keeps only what lies between the first and the second,
    not all that follows the first; the shortened string passes validation
    and is what the model is sent. *)
Theorem prefix_strip_stops_at_second_comma :
  after_first_comma "data:image/jpeg;base64,QUJD,QUJD" = Some "QUJD,QUJD" ∧
  strip_data_url_prefix (PStr "data:image/jpeg;base64,QUJD,QUJD") = Ok (PStr "QUJD") ∧
  estimate_size (ref_env (text_reply "[]"))
    (post_json "203.0.113.7" (PDict [("image", PStr "data:image/jpeg;base64,QUJD,QUJD")])) []
  = (Ok {| body := PList []; status := 200 |}, [GenerateContent (contents_for (PStr "QUJD"))]).
Proof. repeat split; vm_compute; reflexivity. Qed.

(** ** The reply of the model *)

(** A reply whose text parses to a value that both encoders accept is
    answered 200 with that value, listed. *)
Lemma parse_reply_parsed E response t js v :
  text response = Ok t →
  extract_json t = Ok js →
  json_loads E js = Ok v →
  json_dumps E (ensure_list v) = Ok tt →
  jsonify E (ensure_list v) = Ok tt →
  parse_reply E response = Ok {| body := ensure_list v; status := 200 |}.
Proof.
  intros Ht Hx Hl Hd Hj. unfold parse_reply, parse_text. rewrite Ht, Hx.
  cbn [mbind result_bind]. rewrite Hl. cbn [mbind result_bind].
  by rewrite Hd, Hj.
Qed.

Lemma jpeg_post_reaches_model reply :
  reaches_model (ref_env reply) jpeg_post (PStr "/9j/4AAQ").
Proof.
  by apply (reaches_model_intro _ _
              [("image", PStr "data:image/jpeg;base64,/9j/4AAQ")]
              "data:image/jpeg;base64,/9j/4AAQ").
Qed.

(** C4 (as amended): when the reply holds a fenced block marked [```json],
    no second such marker begins inside the closing fence, the trimmed
    content between the first pair of markers parses to a JSON array, and
    that array encodes ([json.dumps] and [jsonify] do not raise on it), the
    view answers 200 and the body is exactly that array. *)
Theorem fenced_array_is_returned E request image_data response t mid l tr :
  reaches_model E request image_data →
  generate_content E (contents_for image_data) = Ok response →
  text response = Ok t →
  fenced_content t = Some mid →
  fence_overlap t = false →
  json_loads E (str_strip mid) = Ok (PList l) →
  json_dumps E (PList l) = Ok tt →
  jsonify E (PList l) = Ok tt →
  estimate_size E request tr =
    (Ok {| body := PList l; status := 200 |},
     (tr ++ [GenerateContent (contents_for image_data)])%list).
Proof.
  intros Hr Hg Ht Hm Hov Hl Hd Hj.
  rewrite (estimate_size_reaches_model _ _ _ _ Hr), Hg.
  by rewrite (parse_reply_parsed E response t (str_strip mid) (PList l) Ht
                (extract_json_fenced_content t mid Hm Hov) Hl Hd Hj).
Qed.

Lemma fenced_array_is_returned_witness :
  reaches_model (ref_env (text_reply suitcase_reply)) jpeg_post (PStr "/9j/4AAQ") ∧
  (∃ mid, fenced_content suitcase_reply = Some mid ∧
          py_json_loads (str_strip mid) = Ok (PList [suitcase_item])) ∧
  fence_overlap suitcase_reply = false ∧
  estimate_size (ref_env (text_reply suitcase_reply)) jpeg_post [] =
    (Ok {| body := PList [suitcase_item]; status := 200 |},
     [GenerateContent (contents_for (PStr "/9j/4AAQ"))]).
Proof.
  split; [apply jpeg_post_reaches_model|].
  split; [eexists; split; vm_compute; reflexivity|].
  split; [vm_compute; reflexivity|].
  eapply (fenced_array_is_returned (ref_env (text_reply suitcase_reply)) jpeg_post
            (PStr "/9j/4AAQ") {| text := Ok suitcase_reply |} suitcase_reply);
    [apply jpeg_post_reaches_model | reflexivity | reflexivity
    | vm_compute; reflexivity | vm_compute; reflexivity | vm_compute; reflexivity
    | reflexivity | reflexivity].
Defined.

(** C4 (counterexample): a fenced block whose content is a single object.
    The response is 200, but its body is the object wrapped in an array, not
    the value parsed from the block. *)
Lemma fenced_object_is_not_returned_as_is :
  fenced_content object_reply
    = Some (nl +:+ with_quotes "{#object_type#: #backpack#}" +:+ nl) ∧
  py_json_loads (str_strip (nl +:+ with_quotes "{#object_type#: #backpack#}" +:+ nl))
    = Ok (PDict [("object_type", PStr "backpack")]) ∧
  estimate_size (ref_env (text_reply object_reply)) jpeg_post [] =
    (Ok {| body := PList [PDict [("object_type", PStr "backpack")]]; status := 200 |},
     [GenerateContent (contents_for (PStr "/9j/4AAQ"))]) ∧
  PList [PDict [("object_type", PStr "backpack")]] ≠ PDict [("object_type", PStr "backpack")].
Proof. repeat split; try (vm_compute; reflexivity). discriminate. Qed.

(** Why the overlap is excluded: with a second marker beginning one backtick
    into the closing fence, the text is cut inside that fence; the block
    holds [[1]], the decoder is handed [[1]`] and the answer is 500. *)
Example fence_overlap_example :
  let t := fence_json +:+ "[1]" +:+ fence +:+ "`json" in
  fenced_content t = Some "[1]" ∧
  fence_overlap t = true ∧
  extract_json t = Ok "[1]`" ∧
  estimate_size (ref_env (text_reply t)) jpeg_post [] =
    (Ok {| body := PList [error_item]; status := 500 |},
     [GenerateContent (contents_for (PStr "/9j/4AAQ"))]).
Proof. repeat split; vm_compute; reflexivity. Qed.

(** C5 (as amended): when the extracted text parses and the listed value
    encodes ([json.dumps] and [jsonify] do not raise on it), the view
    answers 200; a parsed array is the body unchanged, any other parsed
    value is the single element of the body. *)
Theorem parsed_value_is_listed E request image_data response t js v tr :
  reaches_model E request image_data →
  generate_content E (contents_for image_data) = Ok response →
  text response = Ok t →
  extract_json t = Ok js →
  json_loads E js = Ok v →
  json_dumps E (ensure_list v) = Ok tt →
  jsonify E (ensure_list v) = Ok tt →
  estimate_size E request tr =
    (Ok {| body := if is_list v then v else PList [v]; status := 200 |},
     (tr ++ [GenerateContent (contents_for image_data)])%list).
Proof.
  intros Hr Hg Ht Hx Hl Hd Hj.
  rewrite (estimate_size_reaches_model _ _ _ _ Hr), Hg.
  rewrite (parse_reply_parsed E response t js v Ht Hx Hl Hd Hj).
  by destruct v.
Qed.

Lemma parsed_value_is_listed_witness :
  reaches_model (ref_env (text_reply object_reply)) jpeg_post (PStr "/9j/4AAQ") ∧
  extract_json object_reply = Ok (with_quotes "{#object_type#: #backpack#}") ∧
  py_json_loads (with_quotes "{#object_type#: #backpack#}")
    = Ok (PDict [("object_type", PStr "backpack")]) ∧
  estimate_size (ref_env (text_reply object_reply)) jpeg_post [] =
    (Ok {| body := PList [PDict [("object_type", PStr "backpack")]]; status := 200 |},
     [GenerateContent (contents_for (PStr "/9j/4AAQ"))]).
Proof.
  split; [apply jpeg_post_reaches_model|].
  split; [vm_compute; reflexivity|]. split; [vm_compute; reflexivity|].
  apply (parsed_value_is_listed (ref_env (text_reply object_reply)) jpeg_post
           (PStr "/9j/4AAQ") {| text := Ok object_reply |} object_reply
           (with_quotes "{#object_type#: #backpack#}")
           (PDict [("object_type", PStr "backpack")]));
    [apply jpeg_post_reaches_model | reflexivity | reflexivity
    | vm_compute; reflexivity | vm_compute; reflexivity | reflexivity | reflexivity].
Defined.

(** C5 (counterexample): a reply that is an array nested 980 deep.  The
    decoder returns the array, the encoding of line 127 exhausts the
    recursion limit, and the catch-all answers 500 with an [error] object:
    the array is not returned. *)
Lemma deep_array_is_500 :
  extract_json deep_reply = Ok deep_reply ∧
  (∃ l, py_json_loads deep_reply = Ok (PList l)) ∧
  (∃ msg, estimate_size (ref_env (text_reply deep_reply)) jpeg_post [] =
            (Ok (error_response msg 500),
             [GenerateContent (contents_for (PStr "/9j/4AAQ"))])) ∧
  (∀ b, (estimate_size (ref_env (text_reply deep_reply)) jpeg_post []).1
          ≠ Ok {| body := b; status := 200 |}).
Proof.
  assert (estimate_size (ref_env (text_reply deep_reply)) jpeg_post [] =
            (Ok (error_response "maximum recursion depth exceeded" 500),
             [GenerateContent (contents_for (PStr "/9j/4AAQ"))])) as Hrun
    by (vm_compute; reflexivity).
  split; [vm_compute; reflexivity|]. split; [|split].
  - destruct (py_json_loads deep_reply) as [[]|] eqn:H;
      try (vm_compute in H; discriminate H). eauto.
  - eauto.
  - intros b. rewrite Hrun. discriminate.
Qed.

Example prompt_text_shape :
  String.length prompt_text = 2814%nat ∧
  str_contains fence_json prompt_text = true ∧
  str_contains (dq +:+ "object_type" +:+ dq +:+ ":" +:+ dq +:+ "No Luggage" +:+ dq)
    prompt_text = true.
Proof. repeat split; vm_compute; reflexivity. Qed.

(** The names in [luggage_item_fields] are the quoted keys of the schema
    in the prompt. *)
Lemma luggage_item_fields_in_prompt :
  forallb (λ f, str_contains (dq +:+ f +:+ dq +:+ ":") prompt_text) luggage_item_fields
    = true.
Proof. vm_compute. reflexivity. Qed.

(** C6 (as amended): when [json.loads] raises a [JSONDecodeError] on the
    extracted text, the view answers 500 with a one-element array; its item
    has [object_type] ["Error"] and [None] under [length_inches],
    [width_inches] and [height_inches], names that are not among the fields
    of the declared luggage item. *)
Theorem undecodable_reply_is_500 E request image_data response t js e tr :
  reaches_model E request image_data →
  generate_content E (contents_for image_data) = Ok response →
  text response = Ok t →
  extract_json t = Ok js →
  json_loads E js = Raise e →
  is_json_decode_error e = true →
  estimate_size E request tr =
    (Ok {| body := PList [error_item]; status := 500 |},
     (tr ++ [GenerateContent (contents_for image_data)])%list) ∧
  ∃ d, error_item = PDict d ∧
       dict_get d "object_type" = Some (PStr "Error") ∧
       Forall (λ k, dict_get d k = Some PNone ∧ k ∉ luggage_item_fields)
         ["length_inches"; "width_inches"; "height_inches"].
Proof.
  intros Hr Hg Ht Hx Hl He. split.
  - rewrite (estimate_size_reaches_model _ _ _ _ Hr), Hg.
    unfold parse_reply, parse_text. rewrite Ht, Hx. cbn [mbind result_bind].
    rewrite Hl. cbn [mbind result_bind]. by rewrite He.
  - eexists. split; [reflexivity|]. split; [reflexivity|].
    repeat (constructor;
            [split; [reflexivity | apply (bool_decide_unpack _); vm_compute; reflexivity]|]).
    constructor.
Qed.

Lemma undecodable_reply_is_500_witness :
  reaches_model (ref_env (text_reply "I see no luggage.")) jpeg_post (PStr "/9j/4AAQ") ∧
  extract_json "I see no luggage." = Ok "I see no luggage." ∧
  py_json_loads "I see no luggage." = Raise (Exn JSONDecodeError "Expecting value") ∧
  estimate_size (ref_env (text_reply "I see no luggage.")) jpeg_post [] =
    (Ok {| body := PList [error_item]; status := 500 |},
     [GenerateContent (contents_for (PStr "/9j/4AAQ"))]).
Proof.
  split; [apply jpeg_post_reaches_model|].
  split; [vm_compute; reflexivity|]. split; [vm_compute; reflexivity|].
  apply (undecodable_reply_is_500 (ref_env (text_reply "I see no luggage.")) jpeg_post
           (PStr "/9j/4AAQ") {| text := Ok "I see no luggage." |} "I see no luggage."
           "I see no luggage." (Exn JSONDecodeError "Expecting value"));
    [apply jpeg_post_reaches_model | reflexivity | reflexivity
    | vm_compute; reflexivity | vm_compute; reflexivity | reflexivity].
Defined.

(** C6 (counterexample): a reply of two thousand opening brackets is not
    parseable JSON, but the decoder gives up with a [RecursionError], which
    the handler of line 130 does not catch; the catch-all answers 500 with
    an [error] object, not with the placeholder item. *)
Lemma unclosed_brackets_is_error_object :
  extract_json unclosed_reply = Ok unclosed_reply ∧
  is_ok (py_json_loads_bounded unclosed_reply) = false ∧
  (∃ msg, estimate_size (bounded_env (text_reply unclosed_reply)) jpeg_post [] =
            (Ok (error_response msg 500),
             [GenerateContent (contents_for (PStr "/9j/4AAQ"))])) ∧
  (estimate_size (bounded_env (text_reply unclosed_reply)) jpeg_post []).1
    ≠ Ok {| body := PList [error_item]; status := 500 |}.
Proof.
  assert (estimate_size (bounded_env (text_reply unclosed_reply)) jpeg_post [] =
            (Ok (error_response
                   "maximum recursion depth exceeded while decoding a JSON array from a unicode string"
                   500),
             [GenerateContent (contents_for (PStr "/9j/4AAQ"))])) as Hrun
    by (vm_compute; reflexivity).
  split; [vm_compute; reflexivity|]. split; [vm_compute; reflexivity|].
  split; [eauto|]. rewrite Hrun. discriminate.
Qed.

(** ** What the model is sent *)

(** The view reads of the decoder's result only whether it is one. *)
Lemma estimate_size_body_ext E E' request tr :
  (∀ v, is_ok (b64decode E' v) = is_ok (b64decode E v)) →
  (∀ s, json_loads E' s = json_loads E s) →
  (∀ c, generate_content E' c = generate_content E c) →
  (∀ v, json_dumps E' v = json_dumps E v) →
  (∀ v, jsonify E' v = jsonify E v) →
  estimate_size_body E' request tr = estimate_size_body E request tr.
Proof.
  intros Hb Hl Hg Hd Hj. unfold estimate_size_body, call_generate_content, lift,
    mbind, M_bind, mret, M_ret.
  destruct (get_json request) as [data|]; [|done].
  destruct (if negb (truthy data) then Ok true else negb <$> py_contains "image" data)
    as [[]|]; [done| |done].
  destruct (py_getitem_str data "image") as [raw|]; [|done].
  destruct (strip_data_url_prefix raw) as [image_data|]; [|done].
  specialize (Hb image_data).
  destruct (b64decode E' image_data), (b64decode E image_data); try done.
  rewrite Hg. destruct (generate_content E (contents_for image_data)) as [response|]; [|done].
  unfold parse_reply, parse_text. destruct (text response) as [t|]; [|done].
  destruct (extract_json t) as [js|]; [|done].
  cbn [mbind result_bind]. rewrite Hl.
  destruct (json_loads E js) as [v|]; [|done].
  cbn [mbind result_bind]. by rewrite Hd, Hj.
Qed.

(** C7: a request that passes validation makes exactly one call to the
    model, with the prompt and the stripped string under the MIME type
    [image/jpeg]; and the whole answer is the same under any decoder that
    accepts the same inputs, whatever bytes it returns, the other library
    calls being the same. *)
Theorem model_is_sent_the_stripped_string E E' request image_data tr :
  reaches_model E request image_data →
  (∀ v, is_ok (b64decode E' v) = is_ok (b64decode E v)) →
  (∀ s, json_loads E' s = json_loads E s) →
  (∀ c, generate_content E' c = generate_content E c) →
  (∀ v, json_dumps E' v = json_dumps E v) →
  (∀ v, jsonify E' v = jsonify E v) →
  (estimate_size E request tr).2 =
    (tr ++ [GenerateContent
              [ PStr prompt_text;
                PDict [("mime_type", PStr "image/jpeg"); ("data", image_data)] ]])%list ∧
  estimate_size E' request tr = estimate_size E request tr.
Proof.
  intros Hr Hb Hl Hg Hd Hj. split.
  - by rewrite (estimate_size_reaches_model _ _ _ _ Hr).
  - unfold estimate_size, try_except.
    by rewrite (estimate_size_body_ext E E' request tr Hb Hl Hg Hd Hj).
Qed.

(** A decoder that accepts what [py_b64decode] accepts and returns no bytes. *)
Lemma model_is_sent_the_stripped_string_witness :
  let E := ref_env (text_reply suitcase_reply) in
  let E' := {| b64decode := λ v, (λ _, []) <$> py_b64decode v;
               json_loads := py_json_loads;
               generate_content := λ _, text_reply suitcase_reply;
               json_dumps := py_encode;
               jsonify := py_encode |} in
  reaches_model E jpeg_post (PStr "/9j/4AAQ") ∧
  (estimate_size E jpeg_post []).2 =
    [GenerateContent
       [ PStr prompt_text;
         PDict [("mime_type", PStr "image/jpeg"); ("data", PStr "/9j/4AAQ")] ]] ∧
  estimate_size E' jpeg_post [] = estimate_size E jpeg_post [].
Proof.
  intros E E'. split; [apply jpeg_post_reaches_model|].
  apply (model_is_sent_the_stripped_string E E' jpeg_post (PStr "/9j/4AAQ") []).
  - apply jpeg_post_reaches_model.
  - intros v. cbn [E E' b64decode ref_env]. by destruct (py_b64decode v).
  - reflexivity.
  - reflexivity.
  - reflexivity.
  - reflexivity.
Defined.

(** ** The catch-all *)


(** So does a failure to read the request body. *)
Lemma get_json_failure_raises E request e tr :
  get_json request = Raise e → estimate_size_body E request tr = (Raise e, tr).
Proof.
  intros Hj. unfold estimate_size_body, lift, mbind, M_bind. by rewrite Hj.
Qed.

(** The view itself never raises. *)
Lemma estimate_size_never_raises E request tr :
  ∃ r tr', estimate_size E request tr = (Ok r, tr').
Proof.
  unfold estimate_size, try_except.
  destruct (estimate_size_body E request tr) as [[r|e] tr']; eauto.
Qed.



(** ** An image that is not a string *)




(** ** The rate limit *)

Lemma serve_handled E now request st :
  is_handled (serve E now request st).1
    = (limiter_hit now (remote_addr request) (storage st)).1.
Proof.
  unfold serve. destruct (limiter_hit _ _ _) as [[] storage']; [|done].
  by destruct (estimate_size E request (calls st)).
Qed.

Lemma serve_storage E now request st :
  storage (serve E now request st).2
    = (limiter_hit now (remote_addr request) (storage st)).2.
Proof.
  unfold serve. destruct (limiter_hit _ _ _) as [[] storage']; [|done].
  by destruct (estimate_size E request (calls st)).
Qed.

(** A request the limiter turns away makes no call to the model. *)
Lemma serve_rejected E now request st st' :
  serve E now request st = (Rejected, st') → calls st' = calls st.
Proof.
  unfold serve. destruct (limiter_hit _ _ _) as [[] storage'].
  - by destruct (estimate_size E request (calls st)).
  - by intros [= <-].
Qed.

(** While the window of [addr] is open, its [i]-th further request is
    handled exactly when the count has room for it. *)
Lemma serve_all_open_window E reqs st addr w i o :
  storage st !! addr = Some w →
  Forall (λ tr, (tr.1 < expiry w)%nat) reqs →
  outcomes_of addr reqs (serve_all E reqs st).1 !! i = Some o →
  is_handled o = (hits w + i + 1 <=? limit_amount)%nat.
Proof.
  revert st w i. induction reqs as [|[now request] reqs IH]; intros st w i Hw Hall Hi;
    [done|].
  apply Forall_cons in Hall as [Hnow Hall]. cbn [fst] in Hnow.
  cbn [serve_all] in Hi.
  pose proof (serve_handled E now request st) as Hh.
  pose proof (serve_storage E now request st) as Hst.
  destruct (serve E now request st) as [o1 st1]. cbn [fst snd] in Hh, Hst.
  destruct (serve_all E reqs st1) as [os st2] eqn:Hrun.
  cbn [fst outcomes_of] in Hi. unfold from_addr in Hi. cbn [snd] in Hi.
  unfold limiter_hit in Hh, Hst. cbn [fst snd] in Hh, Hst.
  destruct (String.eqb_spec (remote_addr request) addr) as [Heq|Hne].
  - rewrite Heq, Hw in Hh, Hst.
    destruct (Nat.leb_spec (expiry w) now) as [?|_]; [lia|].
    cbn [hits expiry] in Hh, Hst.
    destruct i as [|i].
    + injection Hi as <-. rewrite Hh. f_equal. lia.
    + cbn [lookup list_lookup] in Hi.
      assert (os = (serve_all E reqs st1).1) as Hos by by rewrite Hrun.
      rewrite Hos in Hi.
      rewrite (IH st1 {| hits := S (hits w); expiry := expiry w |} i); cbn [hits expiry].
      * f_equal. lia.
      * by rewrite Hst, lookup_insert_eq.
      * done.
      * done.
  - assert (os = (serve_all E reqs st1).1) as Hos by by rewrite Hrun.
    rewrite Hos in Hi. apply (IH st1 w i); [|done..].
    rewrite Hst. by rewrite lookup_insert_ne.
Qed.

(** A list whose [j]-th element passes [f] exactly for [k + j < n] has at
    most [n - k] elements that pass. *)
Lemma filter_length_bound {A} (f : A → bool) (l : list A) k n :
  (∀ j x, l !! j = Some x → f x = (k + j <? n)%nat) →
  (length (List.filter f l) ≤ n - k)%nat.
Proof.
  revert k. induction l as [|x l IH]; intros k H; [cbn; lia|].
  cbn [List.filter].
  pose proof (H 0%nat x eq_refl) as Hx.
  assert (length (List.filter f l) ≤ n - S k)%nat as Hl.
  { apply IH. intros j y Hy. rewrite (H (S j) y Hy). f_equal. lia. }
  destruct (f x); cbn [length]; [|lia].
  symmetry in Hx. apply Nat.ltb_lt in Hx. lia.
Qed.

(** From the request that opens a window of [addr] on, its [i]-th request
    is handled exactly when [i] is below the limit. *)
Lemma serve_all_new_window E st t0 r0 reqs i o :
  window_closed t0 (remote_addr r0) (storage st) →
  Forall (λ tr, (tr.1 < t0 + limit_period)%nat) reqs →
  outcomes_of (remote_addr r0) ((t0, r0) :: reqs)
    (serve_all E ((t0, r0) :: reqs) st).1 !! i = Some o →
  is_handled o = (i <? limit_amount)%nat.
Proof.
  intros Hclosed Hall Hi. cbn [serve_all] in Hi.
  pose proof (serve_handled E t0 r0 st) as Hh.
  pose proof (serve_storage E t0 r0 st) as Hst.
  destruct (serve E t0 r0 st) as [o1 st1]. cbn [fst snd] in Hh, Hst.
  destruct (serve_all E reqs st1) as [os st2] eqn:Hrun.
  cbn [fst outcomes_of] in Hi. unfold from_addr in Hi. cbn [snd] in Hi.
  rewrite String.eqb_refl in Hi.
  unfold limiter_hit in Hh, Hst. cbn [fst snd] in Hh, Hst.
  assert (match storage st !! remote_addr r0 with
          | Some w => if (expiry w <=? t0)%nat then None else Some w
          | None => None
          end = None) as Hlive.
  { unfold window_closed in Hclosed. destruct (storage st !! remote_addr r0) as [w|]; [|done].
    by destruct (Nat.leb_spec (expiry w) t0); [|lia]. }
  rewrite Hlive in Hh, Hst. cbn [hits] in Hh.
  destruct i as [|i].
  - injection Hi as <-. by rewrite Hh.
  - cbn [lookup list_lookup] in Hi.
    assert (os = (serve_all E reqs st1).1) as Hos by by rewrite Hrun.
    rewrite Hos in Hi.
    rewrite (serve_all_open_window E reqs st1 (remote_addr r0)
               {| hits := 1; expiry := t0 + limit_period |} i o); cbn [hits expiry].
    + unfold Nat.ltb. f_equal. lia.
    + by rewrite Hst, lookup_insert_eq.
    + done.
    + done.
Qed.

(** C9: of the requests one address sends within a window of the limiter -
    from the request that opens it until it expires a minute later - at most
    10 reach the view; every further one is turned away, and a request that
    is turned away makes no call to the model. *)
Theorem at_most_ten_per_window E st t0 r0 reqs :
  window_closed t0 (remote_addr r0) (storage st) →
  Forall (λ tr, (tr.1 < t0 + limit_period)%nat) reqs →
  let run := (t0, r0) :: reqs in
  let mine := outcomes_of (remote_addr r0) run (serve_all E run st).1 in
  (length (List.filter is_handled mine) ≤ 10)%nat ∧
  (∀ i o, mine !! i = Some o → (10 ≤ i)%nat → o = Rejected) ∧
  (∀ now request st1 st2,
     serve E now request st1 = (Rejected, st2) → calls st2 = calls st1).
Proof.
  intros Hclosed Hall run mine. split; [|split].
  - replace 10%nat with (limit_amount - 0)%nat by done.
    apply filter_length_bound. intros j o Hj.
    apply (serve_all_new_window E st t0 r0 reqs j o Hclosed Hall Hj).
  - intros i o Hi Hge.
    pose proof (serve_all_new_window E st t0 r0 reqs i o Hclosed Hall Hi) as Hh.
    destruct o as [r|]; [|done]. cbn [is_handled] in Hh.
    symmetry in Hh. apply Nat.ltb_lt in Hh. unfold limit_amount in Hh. lia.
  - intros now request st1 st2. apply serve_rejected.
Qed.

(** Twelve requests from one address within five seconds: ten are handled,
    two are turned away. *)
Lemma at_most_ten_per_window_witness :
  let st := {| storage := ∅; calls := [] |} in
  let reqs := replicate 11 (5%nat, jpeg_post) in
  let E := ref_env (text_reply suitcase_reply) in
  window_closed 0 (remote_addr jpeg_post) (storage st) ∧
  Forall (λ tr, (tr.1 < 0 + limit_period)%nat) reqs ∧
  map is_handled (serve_all E ((0%nat, jpeg_post) :: reqs) st).1
    = (replicate 10 true ++ replicate 2 false)%list ∧
  (length (List.filter is_handled
             (outcomes_of (remote_addr jpeg_post) ((0%nat, jpeg_post) :: reqs)
                (serve_all E ((0%nat, jpeg_post) :: reqs) st).1)) ≤ 10)%nat.
Proof.
  intros st reqs E.
  assert (Forall (λ tr : nat * Request, (tr.1 < 0 + limit_period)%nat) reqs) as Hall.
  { repeat constructor; cbn; unfold limit_period; lia. }
  split; [exact I|]. split; [exact Hall|]. split; [vm_compute; reflexivity|].
  exact (proj1 (at_most_ten_per_window E st 0 jpeg_post reqs I Hall)).
Defined.

(** * Further properties of the view *)

(** ** More on strings *)

Lemma str_take_drop i s : str_take i s +:+ str_drop i s = s.
Proof.
  revert s. induction i as [|i IH]; intros s; [by rewrite str_drop_0; destruct s|].
  destruct s as [|c s]; [done|]. cbn [str_take str_drop]. by rewrite app_cons, IH.
Qed.

Lemma str_drop_add i n s : str_drop (i + n) s = str_drop n (str_drop i s).
Proof.
  revert s. induction i as [|i IH]; intros s; [by rewrite str_drop_0|].
  destruct s as [|c s]; [by rewrite !str_drop_empty|]. apply IH.
Qed.

Lemma str_drop_length n s : String.length (str_drop n s) = (String.length s - n)%nat.
Proof.
  revert s. induction n as [|n IH]; intros s; [rewrite str_drop_0; lia|].
  destruct s as [|c s]; [done|]. apply IH.
Qed.

Lemma str_drop_app h x : str_drop (String.length h) (h +:+ x) = x.
Proof. induction h as [|c h IH]; [apply str_drop_0|]. apply IH. Qed.

(** A string that begins with [a] is [a] followed by the rest. *)
Lemma prefix_split a s :
  String.prefix a s = true → s = a +:+ str_drop (String.length a) s.
Proof.
  revert s. induction a as [|c a IH]; intros s H; [by rewrite str_drop_0|].
  destruct s as [|b s]; [done|]. cbn [String.prefix] in H.
  destruct (ascii_dec c b) as [->|]; [|done].
  rewrite app_cons. cbn [String.length str_drop]. f_equal. by apply IH.
Qed.

Lemma prefix_length a s :
  String.prefix a s = true → (String.length a ≤ String.length s)%nat.
Proof.
  revert s. induction a as [|c a IH]; intros s H; [cbn; lia|].
  destruct s as [|b s]; [done|]. cbn [String.prefix] in H.
  destruct (ascii_dec c b); [|done]. cbn [String.length]. apply IH in H. lia.
Qed.

(** An occurrence anywhere is found. *)
Lemma str_find_complete a s q :
  a ≠ EmptyString →
  String.prefix a (str_drop q s) = true → ∃ k, str_find a s = Some k.
Proof.
  intros Ha. revert q. induction s as [|c s IH]; intros q H.
  - rewrite str_drop_empty in H. by rewrite prefix_empty_r in H.
  - cbn [str_find]. destruct (String.prefix a (String c s)) eqn:Hp; [eauto|].
    destruct q as [|q]; [rewrite str_drop_0 in H; congruence|].
    cbn [str_drop] in H. destruct (IH q H) as [k ->]. eauto.
Qed.

(** The part in front of the first separator holds no separator. *)
Lemma str_before_find a s : a ≠ EmptyString → str_find a (str_before a s) = None.
Proof.
  intros Ha. unfold str_before. destruct (str_find a s) as [k|] eqn:Hk; [|done].
  by apply str_find_take_eq.
Qed.

Lemma prefix_empty_l (s : string) : String.prefix EmptyString s = true.
Proof. by destruct s. Qed.

(** Where the first comma is, when the text in front of it has none. *)
Lemma str_find_comma_app h x :
  str_contains "," h = false →
  str_find "," (h +:+ "," +:+ x) = Some (String.length h).
Proof.
  induction h as [|c h IH]; intros H.
  - rewrite app_empty_l. change ("," +:+ x) with (String "," x).
    cbn [str_find String.prefix]. destruct (ascii_dec "," ","); [|done].
    by rewrite prefix_empty_l.
  - cbn [str_contains] in H. apply orb_false_elim in H as [Hc Hh].
    rewrite app_cons. cbn [str_find String.length].
    assert (String.prefix "," (String c (h +:+ "," +:+ x)) = false) as ->.
    { cbn [String.prefix] in *. destruct (ascii_dec "," c); [|done].
      by rewrite prefix_empty_l in Hc. }
    by rewrite IH.
Qed.

Lemma str_lstrip_clean s : starts_clean (str_lstrip s).
Proof.
  induction s as [|c s IH]; [done|]. cbn [str_lstrip].
  by destruct (is_space c) eqn:Hc.
Qed.

Lemma str_lstrip_id s : starts_clean s → str_lstrip s = s.
Proof. destruct s as [|c s]; [done|]. cbn. by intros ->. Qed.

Lemma str_rstrip_clean s : starts_clean s → starts_clean (str_rstrip s).
Proof.
  destruct s as [|c s]; [done|]. cbn [starts_clean str_rstrip]. intros Hc.
  rewrite Hc. by destruct (str_rstrip s).
Qed.

Lemma str_rstrip_rstrip s : str_rstrip (str_rstrip s) = str_rstrip s.
Proof.
  induction s as [|c s IH]; [done|]. cbn [str_rstrip].
  destruct (str_rstrip s) as [|d r] eqn:Hr.
  - destruct (is_space c) eqn:Hc; [done|]. cbn [str_rstrip]. by rewrite Hc.
  - change (str_rstrip (String c (String d r)))
      with (match str_rstrip (String d r) with
            | EmptyString => if is_space c then EmptyString else String c EmptyString
            | x => String c x
            end).
    by rewrite IH.
Qed.

(** Trimming a trimmed string changes nothing. *)
Lemma str_strip_strip s : str_strip (str_strip s) = str_strip s.
Proof.
  unfold str_strip.
  rewrite (str_lstrip_id (str_rstrip (str_lstrip s)))
    by apply str_rstrip_clean, str_lstrip_clean.
  apply str_rstrip_rstrip.
Qed.

(** Splitting always yields a piece. *)
Lemma split_from_nonempty sep skip cur s : split_from sep skip cur s ≠ [].
Proof.
  revert skip cur. induction s as [|c s IH]; intros skip cur; [done|].
  cbn [split_from]. destruct skip; [|apply IH].
  destruct (String.prefix sep (String c s)); [done|apply IH].
Qed.

Lemma str_join_cons sep x l :
  l ≠ [] → str_join sep (x :: l) = x +:+ sep +:+ str_join sep l.
Proof. by destruct l. Qed.

Lemma split_from_join sep n :
  sep ≠ EmptyString →
  ∀ s cur, (String.length s < n)%nat →
           str_join sep (split_from sep 0 cur s) = cur +:+ s.
Proof.
  intros Hsep. induction n as [|n IH]; intros s cur Hn; [lia|].
  destruct (str_find sep s) as [i|] eqn:Hf.
  - rewrite (split_from_find_some sep cur s i Hsep Hf).
    rewrite str_join_cons by apply split_from_nonempty.
    pose proof (str_find_prefix _ _ _ Hf) as Hp.
    pose proof (prefix_length _ _ Hp) as Hlen. rewrite str_drop_length in Hlen.
    assert (0 < String.length sep)%nat by (destruct sep; [done|cbn; lia]).
    rewrite IH by (rewrite str_drop_length; lia).
    rewrite app_empty_l, str_drop_add, app_app.
    rewrite <- (prefix_split _ _ Hp). by rewrite str_take_drop.
  - by rewrite (split_from_find_none sep cur s Hf).
Qed.

(** ** Every answer of the view *)

Lemma ensure_list_is_list v : ∃ l, ensure_list v = PList l.
Proof. destruct v; cbn; eauto. Qed.

(** When the inner [try] returns, it returns 200 with a list. *)
Lemma parse_text_ok E t r :
  parse_text E t = Ok r → ∃ l, r = {| body := PList l; status := 200 |}.
Proof.
  unfold parse_text. destruct (extract_json t) as [js|]; [|done].
  cbn [mbind result_bind]. destruct (json_loads E js) as [v|]; [|done].
  cbn [mbind result_bind]. destruct (json_dumps E (ensure_list v)); [|done].
  cbn [mbind result_bind]. destruct (jsonify E (ensure_list v)); [|done].
  cbn [mbind result_bind]. intros [= <-].
  destruct (ensure_list_is_list v) as [l ->]. eauto.
Qed.

(** The answers the view can give, with the calls made for each. *)
Lemma estimate_size_cases E request tr :
  (∃ msg, (msg = "No image provided" ∨ msg = "Invalid image data") ∧
          estimate_size E request tr = (Ok (error_response msg 400), tr)) ∨
  (∃ msg, estimate_size E request tr = (Ok (error_response msg 500), tr)) ∨
  (∃ image_data,
     reaches_model E request image_data ∧
     ((∃ msg, estimate_size E request tr =
                (Ok (error_response msg 500),
                 (tr ++ [GenerateContent (contents_for image_data)])%list)) ∨
      estimate_size E request tr =
        (Ok {| body := PList [error_item]; status := 500 |},
         (tr ++ [GenerateContent (contents_for image_data)])%list) ∨
      (∃ l, estimate_size E request tr =
              (Ok {| body := PList l; status := 200 |},
               (tr ++ [GenerateContent (contents_for image_data)])%list)))).
Proof.
  destruct (get_json request) as [data|e] eqn:Hj;
    [|right; left; eexists; unfold_view; by rewrite Hj].
  destruct (truthy data) eqn:Ht;
    [|left; eexists; split; [by left|]; unfold_view; by rewrite Hj, Ht].
  destruct (py_contains "image" data) as [[]|e] eqn:Hc.
  2:{ left; eexists; split; [by left|]; unfold_view; by rewrite Hj, Ht, Hc. }
  2:{ right; left; eexists; unfold_view; by rewrite Hj, Ht, Hc. }
  destruct (py_getitem_str data "image") as [raw|e] eqn:Hg.
  2:{ right; left; eexists; unfold_view; rewrite Hj, Ht, Hc.
      cbn [negb fmap result_fmap]. by rewrite Hg. }
  destruct (strip_data_url_prefix raw) as [image_data|e] eqn:Hs.
  2:{ right; left; eexists; unfold_view; rewrite Hj, Ht, Hc.
      cbn [negb fmap result_fmap]. by rewrite Hg, Hs. }
  destruct (b64decode E image_data) as [bytes|e] eqn:Hb.
  2:{ left; eexists; split; [by right|]; unfold_view; rewrite Hj, Ht, Hc.
      cbn [negb fmap result_fmap]. by rewrite Hg, Hs, Hb. }
  right; right. exists image_data.
  assert (reaches_model E request image_data) as Hr.
  { exists data, raw. by rewrite Hb. }
  split; [done|]. rewrite (estimate_size_reaches_model _ _ _ _ Hr).
  destruct (generate_content E (contents_for image_data)) as [response|e]; [|left; eauto].
  unfold parse_reply. destruct (text response) as [t|e].
  - destruct (parse_text E t) as [r|e] eqn:Hp.
    + right; right. destruct (parse_text_ok E t r Hp) as [l ->]. eauto.
    + destruct (is_json_decode_error e); [right; by left | left; eauto].
  - left. destruct (is_json_decode_error e); eauto.
Qed.

(** X1: the view never raises, and its status is 200, 400 or 500. *)
Theorem view_answers_200_400_or_500 E request tr :
  ∃ r tr', estimate_size E request tr = (Ok r, tr') ∧
           (status r = 200 ∨ status r = 400 ∨ status r = 500)%Z.
Proof.
  destruct (estimate_size_cases E request tr)
    as [(msg & _ & ->) | [(msg & ->) | (d & _ & [(msg & ->) | [-> | (l & ->)]])]];
    do 2 eexists; (split; [reflexivity|]); cbn; auto.
Qed.

(** X2: an answer with status 400 carries one of the two client errors and
    was given without a call to the model. *)
Theorem status_400_means_no_call E request tr r tr' :
  estimate_size E request tr = (Ok r, tr') →
  status r = 400%Z →
  tr' = tr ∧
  (body r = PDict [("error", PStr "No image provided")] ∨
   body r = PDict [("error", PStr "Invalid image data")]).
Proof.
  intros Hrun Hst.
  destruct (estimate_size_cases E request tr)
    as [(msg & Hmsg & H) | [(msg & H) | (d & _ & [(msg & H) | [H | (l & H)]])]];
    rewrite H in Hrun; injection Hrun as <- <-; try discriminate Hst.
  split; [done|]. by destruct Hmsg as [-> | ->]; [left|right].
Qed.

Lemma status_400_means_no_call_witness :
  estimate_size (ref_env (text_reply "[]")) (post_json "203.0.113.7" (PDict [])) []
    = (Ok (error_response "No image provided" 400), []) ∧
  status (error_response "No image provided" 400) = 400%Z ∧
  ([] : list event) = [] ∧
  (body (error_response "No image provided" 400)
     = PDict [("error", PStr "No image provided")] ∨
   body (error_response "No image provided" 400)
     = PDict [("error", PStr "Invalid image data")]).
Proof.
  split; [reflexivity|]. split; [reflexivity|].
  apply (status_400_means_no_call (ref_env (text_reply "[]"))
           (post_json "203.0.113.7" (PDict [])) []); reflexivity.
Defined.



(** X4: an answer with status 500 has one of two bodies: an object with the
    single key [error], or the one-element array holding the placeholder
    item, the latter only after a call to the model. *)
Theorem status_500_body E request tr r tr' :
  estimate_size E request tr = (Ok r, tr') →
  status r = 500%Z →
  (∃ msg, body r = PDict [("error", PStr msg)]) ∨
  (body r = PList [error_item] ∧
   ∃ image_data,
     reaches_model E request image_data ∧
     tr' = (tr ++ [GenerateContent (contents_for image_data)])%list).
Proof.
  intros Hrun Hst.
  destruct (estimate_size_cases E request tr)
    as [(msg & Hmsg & H) | [(msg & H) | (d & Hr & [(msg & H) | [H | (l & H)]])]];
    rewrite H in Hrun; injection Hrun as <- <-; try discriminate Hst;
    [left; eauto | left; eauto | right; eauto].
Qed.

Lemma status_500_body_witness :
  estimate_size (ref_env (text_reply "I see no luggage.")) jpeg_post [] =
    (Ok {| body := PList [error_item]; status := 500 |},
     [GenerateContent (contents_for (PStr "/9j/4AAQ"))]) ∧
  ((∃ msg, PList [error_item] = PDict [("error", PStr msg)]) ∨
   (PList [error_item] = PList [error_item] ∧
    ∃ image_data,
      reaches_model (ref_env (text_reply "I see no luggage.")) jpeg_post image_data ∧
      [GenerateContent (contents_for (PStr "/9j/4AAQ"))]
        = ([] ++ [GenerateContent (contents_for image_data)])%list)).
Proof.
  split; [vm_compute; reflexivity|].
  apply (status_500_body (ref_env (text_reply "I see no luggage.")) jpeg_post []
           {| body := PList [error_item]; status := 500 |});
    [vm_compute; reflexivity | reflexivity].
Defined.

(** ** Bodies that are not objects *)





Ltac unfold_view_in H :=
  unfold estimate_size, try_except, estimate_size_body, call_generate_content, lift,
    mbind, M_bind, mret, M_ret in H.

(** X8: the answer ["No image provided"] is given exactly when the body was
    read and is falsy or fails the membership test; a body that holds
    ['image'] never gets it. *)
Theorem no_image_answer_exactly E request tr :
  (estimate_size E request tr).1 = Ok (error_response "No image provided" 400) ↔
  ∃ data, get_json request = Ok data ∧
          (truthy data = false ∨ py_contains "image" data = Ok false).
Proof.
  split.
  - intros Hrun.
    destruct (get_json request) as [data|e] eqn:Hj;
      [|unfold_view_in Hrun; rewrite Hj in Hrun; discriminate Hrun].
    exists data. split; [done|].
    destruct (truthy data) eqn:Ht; [|by left]. right.
    destruct (py_contains "image" data) as [[]|e] eqn:Hc; [exfalso| done |exfalso].
    2:{ unfold_view_in Hrun. rewrite Hj, Ht, Hc in Hrun. discriminate Hrun. }
    destruct (estimate_size_cases E request tr)
      as [(msg & [-> | ->] & H) | [(msg & H) | (d & _ & [(msg & H) | [H | (l & H)]])]];
      rewrite H in Hrun; try discriminate Hrun.
    revert H. unfold_view. rewrite Hj, Ht, Hc. cbn [negb fmap result_fmap].
    destruct (py_getitem_str data "image") as [raw|]; [|discriminate].
    destruct (strip_data_url_prefix raw) as [image_data|]; [|discriminate].
    destruct (b64decode E image_data); [|discriminate].
    destruct (generate_content E (contents_for image_data)) as [response|];
      [|discriminate].
    destruct (parse_reply E response); intros [= H1 H2];
      apply (f_equal length) in H2; rewrite length_app in H2; cbn in H2; lia.
  - intros (data & Hj & Hd).
    unfold_view. rewrite Hj. destruct Hd as [Ht | Hc].
    + by rewrite Ht.
    + rewrite Hc. by destruct (truthy data).
Qed.

(** ** The prefix strip *)

Lemma strip_data_url_prefix_result s :
  ∃ p, strip_data_url_prefix (PStr s) = Ok (PStr p) ∧ str_contains "," p = false.
Proof.
  destruct (str_find "," s) as [i|] eqn:Hf.
  - rewrite (strip_data_url_prefix_comma s i Hf). eexists. split; [done|].
    by rewrite str_contains_find, str_before_find.
  - rewrite (strip_data_url_prefix_no_comma s Hf). eexists. split; [done|].
    by rewrite str_contains_find, Hf.
Qed.

(** X9: whatever the ['image'] string, the string that is validated and
    sent to the model contains no comma. *)
Theorem stripped_string_has_no_comma s :
  ∃ p, strip_data_url_prefix (PStr s) = Ok (PStr p) ∧ str_contains "," p = false.
Proof. apply strip_data_url_prefix_result. Qed.

(** X10: stripping is idempotent: applied to its own result on a string, it
    returns that result. *)
Theorem strip_data_url_prefix_idempotent s p :
  strip_data_url_prefix (PStr s) = Ok p → strip_data_url_prefix p = Ok p.
Proof.
  intros Hs. destruct (strip_data_url_prefix_result s) as (q & Hq & Hc).
  rewrite Hq in Hs. injection Hs as <-.
  apply strip_data_url_prefix_no_comma. by apply str_contains_false.
Qed.

Lemma strip_data_url_prefix_idempotent_witness :
  strip_data_url_prefix (PStr "data:image/png;base64,QUJD,QUJD") = Ok (PStr "QUJD") ∧
  strip_data_url_prefix (PStr "QUJD") = Ok (PStr "QUJD").
Proof.
  split; [reflexivity|].
  by apply (strip_data_url_prefix_idempotent "data:image/png;base64,QUJD,QUJD").
Defined.

(** X11: for a data URL - a header without comma, one comma, a payload
    without comma - the strip returns exactly the payload. *)
Theorem data_url_payload_is_kept header payload :
  str_contains "," header = false →
  str_contains "," payload = false →
  strip_data_url_prefix (PStr (header +:+ "," +:+ payload)) = Ok (PStr payload).
Proof.
  intros Hh Hp.
  rewrite (strip_data_url_prefix_comma _ _ (str_find_comma_app header payload Hh)).
  change (S (String.length header)) with (String.length (String "," EmptyString) + String.length header)%nat.
  rewrite Nat.add_comm, str_drop_add, str_drop_app.
  change (str_drop (String.length ",") ("," +:+ payload)) with (str_drop 0 payload).
  rewrite str_drop_0. unfold str_before. by rewrite (str_contains_false _ _ Hp).
Qed.

Lemma data_url_payload_is_kept_witness :
  str_contains "," "data:image/jpeg;base64" = false ∧
  str_contains "," "/9j/4AAQ" = false ∧
  strip_data_url_prefix (PStr ("data:image/jpeg;base64" +:+ "," +:+ "/9j/4AAQ"))
    = Ok (PStr "/9j/4AAQ").
Proof.
  split; [reflexivity|]. split; [reflexivity|].
  by apply (data_url_payload_is_kept "data:image/jpeg;base64" "/9j/4AAQ").
Defined.

(** ** Failures while reading the reply *)





(** ** The text handed to the decoder *)

(** X14: the text handed to [json.loads] is trimmed: trimming it again
    changes nothing, so it neither begins nor ends with white space. *)
Theorem extracted_text_is_trimmed t js :
  extract_json t = Ok js → str_strip js = js.
Proof.
  intros H. destruct (str_find fence_json t) as [i|] eqn:Hf.
  - rewrite (extract_json_fenced t i Hf) in H. injection H as <-.
    apply str_strip_strip.
  - rewrite extract_json_unfenced in H by (by rewrite str_contains_find, Hf).
    injection H as <-. apply str_strip_strip.
Qed.

Lemma extracted_text_is_trimmed_witness :
  extract_json ("Sure: ```json  [1]  ``` done") = Ok "[1]" ∧
  str_strip "[1]" = "[1]".
Proof.
  split; [reflexivity|].
  by apply (extracted_text_is_trimmed "Sure: ```json  [1]  ``` done").
Defined.

(** X15: a reply without the [```json] marker is decoded whole, after
    trimming: when that text parses and the listed value encodes
    ([json.dumps] and [jsonify] do not raise on it), the answer is 200 with
    the parsed array, or with the parsed value as the single element. *)
Theorem unfenced_reply_is_parsed_whole E request image_data response t v tr :
  reaches_model E request image_data →
  generate_content E (contents_for image_data) = Ok response →
  text response = Ok t →
  str_contains fence_json t = false →
  json_loads E (str_strip t) = Ok v →
  json_dumps E (ensure_list v) = Ok tt →
  jsonify E (ensure_list v) = Ok tt →
  estimate_size E request tr =
    (Ok {| body := if is_list v then v else PList [v]; status := 200 |},
     (tr ++ [GenerateContent (contents_for image_data)])%list).
Proof.
  intros Hr Hg Ht Hf Hl Hd Hj. rewrite (estimate_size_reaches_model _ _ _ _ Hr), Hg.
  rewrite (parse_reply_parsed E response t (str_strip t) v Ht
             (extract_json_unfenced t Hf) Hl Hd Hj).
  by destruct v.
Qed.

Lemma unfenced_reply_is_parsed_whole_witness :
  let t := nl +:+ "  [null, 12]  " +:+ nl in
  let E := ref_env (text_reply t) in
  reaches_model E jpeg_post (PStr "/9j/4AAQ") ∧
  str_contains fence_json t = false ∧
  py_json_loads (str_strip t) = Ok (PList [PNone; PInt 12]) ∧
  estimate_size E jpeg_post [] =
    (Ok {| body := PList [PNone; PInt 12]; status := 200 |},
     [GenerateContent (contents_for (PStr "/9j/4AAQ"))]).
Proof.
  intros t E. split; [apply jpeg_post_reaches_model|].
  split; [vm_compute; reflexivity|]. split; [vm_compute; reflexivity|].
  apply (unfenced_reply_is_parsed_whole E jpeg_post (PStr "/9j/4AAQ")
           {| text := Ok t |} t (PList [PNone; PInt 12]));
    [apply jpeg_post_reaches_model | reflexivity | reflexivity
    | vm_compute; reflexivity | vm_compute; reflexivity | reflexivity | reflexivity].
Defined.

(** X16: when the marker [```json] is never closed by a fence, the text
    handed to the decoder is all that follows the marker, trimmed. *)
Theorem unclosed_fence_takes_the_rest t i :
  str_find fence_json t = Some i →
  str_find fence (str_drop (i + String.length fence_json) t) = None →
  extract_json t = Ok (str_strip (str_drop (i + String.length fence_json) t)).
Proof.
  intros Hi Hnone. rewrite (extract_json_fenced t i Hi).
  set (after := str_drop (i + String.length fence_json) t) in *.
  assert (str_find fence_json after = None) as Hj.
  { destruct (str_find fence_json after) as [p|] eqn:Hp; [|done].
    apply str_find_prefix in Hp. change fence_json with (fence +:+ "json") in Hp.
    apply prefix_app_l in Hp.
    destruct (str_find_complete fence after p) as [k Hk]; [done..|]. congruence. }
  unfold str_before. by rewrite Hj, Hnone.
Qed.

Lemma unclosed_fence_takes_the_rest_witness :
  str_find fence_json ("Here: ```json [1, 2]") = Some 6%nat ∧
  str_find fence (str_drop (6 + String.length fence_json) "Here: ```json [1, 2]") = None ∧
  extract_json "Here: ```json [1, 2]" = Ok "[1, 2]".
Proof.
  split; [reflexivity|]. split; [reflexivity|].
  exact (unclosed_fence_takes_the_rest "Here: ```json [1, 2]" 6 eq_refl eq_refl).
Defined.

(** ** Splitting *)

(** X17: joining the pieces of [s.split(sep)] with [sep] gives back [s]:
    the split loses no character and cuts only at separators. *)
Theorem split_join_round_trip s sep :
  sep ≠ EmptyString → str_join sep (str_split s sep) = s.
Proof.
  intros Hsep. unfold str_split.
  by rewrite (split_from_join sep (S (String.length s)) Hsep s EmptyString) by lia.
Qed.

Lemma split_join_round_trip_witness :
  "," ≠ EmptyString ∧
  str_split "data:image/jpeg;base64,QUJD,QUJD" "," =
    ["data:image/jpeg;base64"; "QUJD"; "QUJD"] ∧
  str_join "," (str_split "data:image/jpeg;base64,QUJD,QUJD" ",")
    = "data:image/jpeg;base64,QUJD,QUJD".
Proof.
  split; [done|]. split; [reflexivity|].
  by apply (split_join_round_trip "data:image/jpeg;base64,QUJD,QUJD" ",").
Defined.

(** ** The second client error *)

(** X18: the answer ["Invalid image data"] is given exactly when the body
    passed the presence check, the strip succeeded and the base64 decoder
    raised on its result. *)
Theorem invalid_image_answer_exactly E request tr :
  (estimate_size E request tr).1 = Ok (error_response "Invalid image data" 400) ↔
  ∃ data raw image_data e,
    get_json request = Ok data ∧
    truthy data = true ∧
    py_contains "image" data = Ok true ∧
    py_getitem_str data "image" = Ok raw ∧
    strip_data_url_prefix raw = Ok image_data ∧
    b64decode E image_data = Raise e.
Proof.
  split.
  - unfold_view. intros Hrun.
    destruct (get_json request) as [data|] eqn:Hj; [|discriminate Hrun].
    destruct (truthy data) eqn:Ht; [|discriminate Hrun].
    destruct (py_contains "image" data) as [[]|] eqn:Hc; [|discriminate Hrun..].
    cbn [negb fmap result_fmap] in Hrun.
    destruct (py_getitem_str data "image") as [raw|] eqn:Hg; [|discriminate Hrun].
    destruct (strip_data_url_prefix raw) as [image_data|] eqn:Hs; [|discriminate Hrun].
    destruct (b64decode E image_data) as [|e] eqn:Hb.
    + exfalso.
      destruct (generate_content E (contents_for image_data)) as [response|];
        [|discriminate Hrun].
      unfold parse_reply in Hrun. destruct (text response) as [t|e].
      * destruct (parse_text E t) as [r|e] eqn:Hp.
        -- destruct (parse_text_ok E t r Hp) as [l ->]. discriminate Hrun.
        -- destruct (is_json_decode_error e); discriminate Hrun.
      * destruct (is_json_decode_error e); discriminate Hrun.
    + by exists data, raw, image_data, e.
  - intros (data & raw & image_data & e & Hj & Ht & Hc & Hg & Hs & Hb).
    unfold_view. rewrite Hj, Ht, Hc. cbn [negb fmap result_fmap].
    by rewrite Hg, Hs, Hb.
Qed.
